(** * Classification-with-auto-sklearn: the predictor wrapper [src/Classifier.py]

    A shallow embedding of the module's own code: the column-name utility
    [clean_and_ensure_unique], the [Classifier] class (constructor, [train],
    [predict], [predict_proba], [save], [load]) and the three module-level
    helpers.  The AutoML engine, joblib, [os] and the JSON reader are
    third-party or out-of-tree code: they appear as the operations of an
    pair of interfaces ([Engine], [Disk]) over which the wrapper is written. *)

From Stdlib Require Import Ascii.
From stdpp Require Import gmap strings list pretty.

(** ** Part I: [clean_and_ensure_unique] *)

(** A Python [str] is seen through its UTF-8 encoding: a Rocq [string] of
    bytes.  The encoding is injective, and every byte of a non-ASCII code
    point is at least 128, so it lies outside [A-Za-z0-9_] exactly like the
    code point it belongs to. *)

(** The character class [A-Za-z0-9_] of the pattern. *)
Definition is_word_char (c : ascii) : bool :=
  let n := N_of_ascii c in
  ((65 <=? n)%N && (n <=? 90)%N) || ((97 <=? n)%N && (n <=? 122)%N)
  || ((48 <=? n)%N && (n <=? 57)%N) || (n =? 95)%N.

Definition is_digit (c : ascii) : bool :=
  let n := N_of_ascii c in (48 <=? n)%N && (n <=? 57)%N.

(** [re.sub("[^A-Za-z0-9_]+", "", name)]: every maximal run of characters
    outside the class is replaced by the empty string, which leaves the
    characters of the class in their order. *)
Fixpoint re_sub_non_word (name : string) : string :=
  match name with
  | EmptyString => EmptyString
  | String c rest =>
      if is_word_char c then String c (re_sub_non_word rest)
      else re_sub_non_word rest
  end.

(** [str(counter)] for a non-negative Python [int]: its decimal numeral. *)
Definition str (counter : nat) : string := pretty counter.

(** [name in seen] for the dict [seen]. *)
Definition in_dict (name : string) (seen : gmap string bool) : bool :=
  match seen !! name with Some _ => true | None => false end.

(** The inner loop
    [while name in seen: name = original_name + "_" + str(counter); counter += 1].
    [fuel] bounds the number of times the loop condition is evaluated;
    [None] means the bound was reached. *)
Fixpoint while_name_in_seen (fuel : nat) (seen : gmap string bool)
    (original_name name : string) (counter : nat) : option string :=
  match fuel with
  | O => None
  | S fuel' =>
      if in_dict name seen then
        while_name_in_seen fuel' seen original_name
          (original_name +:+ "_" +:+ str counter) (S counter)
      else Some name
  end.

(** The outer loop [for i, name in enumerate(cleaned_names)], which reads
    position [i] of the list it updates in place.  [n] is the number of
    positions still to visit. *)
Fixpoint for_enumerate (fuel n i : nat) (seen : gmap string bool)
    (cleaned_names : list string) : option (list string) :=
  match n with
  | O => Some cleaned_names
  | S n' =>
      match cleaned_names !! i with
      | None => Some cleaned_names
      | Some name =>
          match while_name_in_seen fuel seen name name 1 with
          | None => None
          | Some name' =>
              for_enumerate fuel n' (S i) (<[name' := true]> seen)
                (<[i := name']> cleaned_names)
          end
      end
  end.

Definition clean_and_ensure_unique (fuel : nat) (names : list string)
    : option (list string) :=
  let cleaned_names := re_sub_non_word <$> names in
  for_enumerate fuel (length cleaned_names) 0 ∅ cleaned_names.

(** The [k]-th name the inner loop tries for [original_name]. *)
Definition candidate (original_name : string) (k : nat) : string :=
  match k with
  | O => original_name
  | S _ => original_name +:+ "_" +:+ str k
  end.

Fixpoint chars (s : string) : list ascii :=
  match s with
  | EmptyString => []
  | String c rest => c :: chars rest
  end.

(** Every character of [s] is a letter, a digit or an underscore. *)
Definition word_string (s : string) : Prop :=
  Forall (λ c, is_word_char c = true) (chars s).

Definition digit_string (s : string) : Prop :=
  Forall (λ c, is_digit c = true) (chars s).

(** The suffix the loop may append: nothing, or an underscore and digits. *)
Definition counter_suffix (s : string) : Prop :=
  s = "" ∨ ∃ d, s = "_" +:+ d ∧ d ≠ "" ∧ digit_string d.

(** [name'] is the first of the names the inner loop tries for [name] that
    is not in [taken]. *)
Definition first_free (taken : list string) (name name' : string) : Prop :=
  ∃ k, name' = candidate name k ∧ (name' ∉ taken) ∧
       (∀ k', k' < k → candidate name k' ∈ taken).

(** What the outer loop computes: with [taken] the names settled so far,
    each further name is settled on its first free candidate, which is then
    taken too. *)
Inductive settled : list string → list string → list string → Prop :=
  | settled_nil taken : settled taken [] []
  | settled_cons taken name name' rest out :
      first_free taken name name' →
      settled (taken ++ [name']) rest out →
      settled taken (name :: rest) (name' :: out).

(** ** Part II: the [Classifier] wrapper *)

(** *** Data handed through the wrapper *)

(** A pandas frame is modelled by its labelled columns, in order; labels may
    repeat, as pandas allows. *)
Inductive scalar := SInt (z : Z) | SStr (s : string) | SNaN.

Abbreviation DataFrame := (list (string * list scalar)).

(** What [frame[label]] evaluates to: a Series when the label is unique, a
    frame of all the columns carrying it otherwise. *)
Inductive pandas_obj :=
  | Series (label : string) (values : list scalar)
  | Frame (df : DataFrame).

Definition df_columns (df : DataFrame) : list string := df.*1.

(** The exceptions that can leave the wrapper. *)
Inductive exn :=
  | NotFittedError (msg : string)
  | KeyError (key : string)
  | OSError (msg : string)
  | EngineError (msg : string).

Definition result (A : Type) : Type := exn + A.

#[global] Instance result_ret : MRet result := λ A a, inr a.
#[global] Instance result_bind : MBind result :=
  λ A B f m, match m with inl e => inl e | inr a => f a end.

(** Calls into [os], joblib and the JSON reader fail with an I/O error. *)
Definition lift_io {A : Type} (r : string + A) : result A :=
  match r with inl msg => inl (OSError msg) | inr a => inr a end.

(** [frame.drop(columns=labels)]: a label that is not a column raises
    [KeyError]; otherwise every column carrying one of the labels goes. *)
Definition df_drop_columns (labels : list string) (df : DataFrame)
    : result DataFrame :=
  match filter (λ l, l ∉ df_columns df) labels with
  | [] => inr (filter (λ c, c.1 ∉ labels) df)
  | missing :: _ => inl (KeyError missing)
  end.

(** [frame[label]]. *)
Definition df_getitem (label : string) (df : DataFrame) : result pandas_obj :=
  match filter (λ c, c.1 = label) df with
  | [] => inl (KeyError label)
  | [c] => inr (Series c.1 c.2)
  | cs => inr (Frame cs)
  end.

#[warnings="-register-all"]
Inductive json :=
  | JNull
  | JBool (b : bool)
  | JNum (z : Z)
  | JStr (s : string)
  | JList (items : list json)
  | JDict (items : list (string * json)).

(** [d[key]] on a Python dict. *)
Definition dict_getitem (d : gmap string json) (key : string) : result json :=
  match d !! key with
  | Some v => inr v
  | None => inl (KeyError key)
  end.

(** [schema.data_schema.ClassificationSchema] lives outside [Classifier.py];
    the wrapper reads these two attributes of it. *)
Record ClassificationSchema := {
  target : string;
  model_category : string
}.

Inductive metric := f1 | f1_macro.

(** The keyword arguments of the engine's constructor. *)
Record AutoSklearnArgs := {
  time_left_for_this_task : json;
  per_run_time_limit : json;
  arg_metric : metric;
  include : json;
  seed : json
}.

(** *** The AutoML engine *)

(** [autosklearn.classification.AutoSklearnClassifier], by value.  [fit]
    updates the engine object in place, so it hands back the object it
    leaves behind, also when it raises; [predict] and [predict_proba] are
    the estimator's observers. *)
Class Engine := {
  Automl : Type;
  ndarray : Type;
  AutoSklearnClassifier : AutoSklearnArgs → result Automl;
  automl_fit : Automl → DataFrame → pandas_obj → result unit * Automl;
  automl_predict : Automl → DataFrame → result ndarray;
  automl_predict_proba : Automl → DataFrame → result ndarray
}.

Record Classifier `{Engine} := {
  _is_trained : bool;
  x : DataFrame;
  y : pandas_obj;
  schema : ClassificationSchema;
  model_name : string;
  model_config : gmap string json;
  automl : Automl
}.

Definition set_is_trained `{Engine} (b : bool) (self : Classifier) : Classifier :=
  {| _is_trained := b; x := x self; y := y self; schema := schema self;
     model_name := model_name self; model_config := model_config self;
     automl := automl self |}.

Definition set_automl `{Engine} (a : Automl) (self : Classifier) : Classifier :=
  {| _is_trained := _is_trained self; x := x self; y := y self;
     schema := schema self; model_name := model_name self;
     model_config := model_config self; automl := a |}.

(** *** The disk *)

(** [os.path.exists], [os.makedirs], [joblib.dump], [joblib.load],
    [utils.read_json_as_dict] and the constant
    [paths.MODEL_CONFIG_FILE_PATH], over a file-system state [fs].  The one
    law is what generic object serialization promises: an object that was
    dumped to a path is what loading that path returns. *)
Class Disk `{Engine} := {
  fs : Type;
  os_path_exists : string → fs → bool;
  os_makedirs : string → fs → string + fs;
  joblib_dump : Classifier → string → fs → string + fs;
  joblib_load : string → fs → string + Classifier;
  read_json_as_dict : string → fs → string + gmap string json;
  MODEL_CONFIG_FILE_PATH : string;
  joblib_load_dump : ∀ obj path s s',
    joblib_dump obj path s = inr s' → joblib_load path s' = inr obj
}.

Definition PREDICTOR_FILE_NAME : string := "predictor.joblib".

Fixpoint endswith_sep (path : string) : bool :=
  match path with
  | EmptyString => false
  | String c EmptyString => bool_decide (c = "/"%char)
  | String _ rest => endswith_sep rest
  end.

(** [os.path.join(a, b)] of [posixpath]. *)
Definition os_path_join (a b : string) : string :=
  if String.prefix "/" b then b
  else if bool_decide (a = "") || endswith_sep a then a +:+ b
  else a +:+ "/" +:+ b.

Section wrapper.
Context `{Engine} `{!Disk}.

(** A method runs on the object it is called on and on the disk, and
    leaves both behind, also when it raises. *)
Definition Method (A : Type) : Type :=
  Classifier * fs → result A * (Classifier * fs).

Definition __init__ (train_input : DataFrame) (schema : ClassificationSchema)
    (disk : fs) : result Classifier :=
  x ← df_drop_columns [target schema] train_input;
  y ← df_getitem (target schema) train_input;
  model_config ← lift_io (read_json_as_dict MODEL_CONFIG_FILE_PATH disk);
  let metric :=
    if decide (model_category schema = "binary_classification")
    then f1 else f1_macro in
  task_time ← dict_getitem model_config "task_time";
  model_time ← dict_getitem model_config "model_time";
  include ← dict_getitem model_config "include";
  seed_value ← dict_getitem model_config "seed_value";
  automl ← AutoSklearnClassifier
    {| time_left_for_this_task := task_time;
       per_run_time_limit := model_time;
       arg_metric := metric;
       include := include;
       seed := seed_value |};
  mret {| _is_trained := false; x := x; y := y; schema := schema;
          model_name := "auto_sklearn_classifier";
          model_config := model_config; automl := automl |}.

Definition __str__ (self : Classifier) : string :=
  "Model name: " +:+ model_name self.

Definition train : Method unit :=
  λ '(self, disk),
    let '(r, fitted) := automl_fit (automl self) (x self) (y self) in
    let self := set_automl fitted self in
    match r with
    | inl e => (inl e, (self, disk))
    | inr _ => (inr (), (set_is_trained true self, disk))
    end.

Definition predict (inputs : DataFrame) : Method ndarray :=
  λ '(self, disk), (automl_predict (automl self) inputs, (self, disk)).

Definition predict_proba (inputs : DataFrame) : Method ndarray :=
  λ '(self, disk), (automl_predict_proba (automl self) inputs, (self, disk)).

Definition save (model_dir_path : string) : Method unit :=
  λ '(self, disk),
    if negb (_is_trained self) then
      (inl (NotFittedError "Model is not fitted yet."), (self, disk))
    else
      match joblib_dump self (os_path_join model_dir_path PREDICTOR_FILE_NAME) disk with
      | inl msg => (inl (OSError msg), (self, disk))
      | inr disk' => (inr (), (self, disk'))
      end.

(** A class method: there is no object yet. *)
Definition load (model_dir_path : string) (disk : fs) : result Classifier :=
  lift_io (joblib_load (os_path_join model_dir_path PREDICTOR_FILE_NAME) disk).

(** The module-level helpers; [model] is the object of the state. *)
Definition predict_with_model (data : DataFrame) (return_proba : bool)
    : Method ndarray :=
  if return_proba then predict_proba data else predict data.

Definition save_predictor_model (predictor_dir_path : string) : Method unit :=
  λ '(model, disk),
    if negb (os_path_exists predictor_dir_path disk) then
      match os_makedirs predictor_dir_path disk with
      | inl msg => (inl (OSError msg), (model, disk))
      | inr disk' => save predictor_dir_path (model, disk')
      end
    else save predictor_dir_path (model, disk).

Definition load_predictor_model (predictor_dir_path : string) (disk : fs)
    : result Classifier :=
  load predictor_dir_path disk.
End wrapper.

(** *** A concrete engine and disk, on which the wrapper runs *)

(** An engine that keeps its constructor arguments and the column labels it
    was fitted on, and predicts the column labels it is handed. *)
Record recorder := {
  rec_args : AutoSklearnArgs;
  rec_fit_columns : option (list string)
}.

Definition RecordingEngine : Engine := {|
  Automl := recorder;
  ndarray := list string;
  AutoSklearnClassifier args :=
    inr {| rec_args := args; rec_fit_columns := None |};
  automl_fit engine X _ :=
    (inr (), {| rec_args := rec_args engine;
                rec_fit_columns := Some (df_columns X) |});
  automl_predict _ X := inr (df_columns X);
  automl_predict_proba _ X := inr (df_columns X)
|}.

(** A disk that is a finite map from paths to what they hold. *)
Inductive entry :=
  | Directory
  | PickleFile (obj : @Classifier RecordingEngine)
  | JsonFile (content : gmap string json).

Definition mem_makedirs (path : string) (disk : gmap string entry)
    : string + gmap string entry :=
  if bool_decide (path = "") then inl "No such file or directory"
  else match disk !! path with
       | Some _ => inl "File exists"
       | None => inr (<[path := Directory]> disk)
       end.

Definition mem_dump (obj : @Classifier RecordingEngine) (path : string)
    (disk : gmap string entry) : string + gmap string entry :=
  match disk !! path with
  | Some Directory => inl "Is a directory"
  | _ => inr (<[path := PickleFile obj]> disk)
  end.

Definition mem_load (path : string) (disk : gmap string entry)
    : string + @Classifier RecordingEngine :=
  match disk !! path with
  | Some (PickleFile obj) => inr obj
  | _ => inl "No such pickle"
  end.

Definition mem_read_json (path : string) (disk : gmap string entry)
    : string + gmap string json :=
  match disk !! path with
  | Some (JsonFile content) => inr content
  | _ => inl "No such JSON file"
  end.

Lemma mem_load_dump obj path (disk disk' : gmap string entry) :
  mem_dump obj path disk = inr disk' → mem_load path disk' = inr obj.
Proof.
  unfold mem_dump, mem_load. intros Hdump.
  assert (disk' = <[path := PickleFile obj]> disk) as ->.
  { destruct (disk !! path) as [[]|]; congruence. }
  by rewrite lookup_insert_eq.
Qed.

Definition MemDisk : @Disk RecordingEngine := {|
  fs := gmap string entry;
  os_path_exists path disk := bool_decide (is_Some (disk !! path));
  os_makedirs := mem_makedirs;
  joblib_dump := mem_dump;
  joblib_load := mem_load;
  read_json_as_dict := mem_read_json;
  MODEL_CONFIG_FILE_PATH := "model_config.json";
  joblib_load_dump := mem_load_dump
|}.

Definition sample_config : gmap string json :=
  {[ "task_time" := JNum 60; "model_time" := JNum 30;
     "include" := JNull; "seed_value" := JNum 42 ]}.

Definition sample_disk : gmap string entry :=
  {[ "model_config.json" := JsonFile sample_config ]}.

Definition sample_schema : ClassificationSchema :=
  {| target := "label"; model_category := "binary_classification" |}.

Definition sample_train_input : DataFrame :=
  [("Age%", [SInt 31; SInt 47]); ("label", [SInt 0; SInt 1])].

Definition sample_engine : recorder :=
  {| rec_args := {| time_left_for_this_task := JNum 60;
                    per_run_time_limit := JNum 30;
                    arg_metric := f1;
                    include := JNull;
                    seed := JNum 42 |};
     rec_fit_columns := None |}.

Definition sample_classifier : @Classifier RecordingEngine :=
  @Build_Classifier RecordingEngine false
    [("Age%", [SInt 31; SInt 47])] (Series "label" [SInt 0; SInt 1])
    sample_schema "auto_sklearn_classifier" sample_config sample_engine.

Definition sample_trained : @Classifier RecordingEngine :=
  @Build_Classifier RecordingEngine true
    [("Age%", [SInt 31; SInt 47])] (Series "label" [SInt 0; SInt 1])
    sample_schema "auto_sklearn_classifier" sample_config
    {| rec_args := rec_args sample_engine; rec_fit_columns := Some ["Age%"] |}.

(** The sample disk after the trained sample was saved under ["model"]. *)
Definition saved_disk : gmap string entry :=
  <["model/predictor.joblib" := PickleFile sample_trained]>
    (<["model" := Directory]> sample_disk).

(** An engine whose [fit] raises, with a disk that holds the configuration
    file and takes no writes. *)
Definition FailingEngine : Engine := {|
  Automl := AutoSklearnArgs;
  ndarray := list string;
  AutoSklearnClassifier args := inr args;
  automl_fit engine _ _ := (inl (EngineError "No models fitted"), engine);
  automl_predict _ _ := inl (EngineError "No models fitted");
  automl_predict_proba _ _ := inl (EngineError "No models fitted")
|}.

Lemma read_only_load_dump (obj : @Classifier FailingEngine) (path : string)
    (disk disk' : unit) :
  (inl "Read-only file system" : string + unit) = inr disk' →
  (inl "No such file or directory" : string + @Classifier FailingEngine)
  = inr obj.
Proof. intros Hdump. discriminate Hdump. Qed.

Definition ReadOnlyDisk : @Disk FailingEngine := {|
  fs := unit;
  os_path_exists _ _ := false;
  os_makedirs _ _ := inl "Read-only file system";
  joblib_dump _ _ _ := inl "Read-only file system";
  joblib_load _ _ := inl "No such file or directory";
  read_json_as_dict _ _ := inr sample_config;
  MODEL_CONFIG_FILE_PATH := "model_config.json";
  joblib_load_dump := read_only_load_dump
|}.

Definition sample_unfitted : @Classifier FailingEngine :=
  @Build_Classifier FailingEngine false
    [("Age%", [SInt 31; SInt 47])] (Series "label" [SInt 0; SInt 1])
    sample_schema "auto_sklearn_classifier" sample_config
    (rec_args sample_engine).

(** ** Facts about the string utility *)

Lemma in_dict_true name seen : in_dict name seen = true ↔ is_Some (seen !! name).
Proof.
  unfold in_dict. destruct (seen !! name) as [b|]; split; intros Hs.
  - by exists b.
  - done.
  - done.
  - by destruct Hs.
Qed.

Lemma in_dict_empty name : in_dict name ∅ = false.
Proof. unfold in_dict. by rewrite lookup_empty. Qed.

Lemma in_dict_insert name name' seen :
  in_dict name (<[name' := true]> seen) = true ↔
  name = name' ∨ in_dict name seen = true.
Proof.
  unfold in_dict. destruct (decide (name' = name)) as [->|Hne].
  - rewrite lookup_insert_eq. split; [by left|done].
  - rewrite lookup_insert_ne by done. split; [by right|].
    intros [Heq|Hin]; [by subst|done].
Qed.

Lemma chars_app s t : chars (s +:+ t) = chars s ++ chars t.
Proof.
  induction s as [|c s IH]; [done|].
  change (String c s +:+ t) with (String c (s +:+ t)). cbn. by rewrite IH.
Qed.

Lemma chars_inj s t : chars s = chars t → s = t.
Proof.
  revert t. induction s as [|c s IH]; intros [|d t] Heq; simplify_eq/=; [done|].
  f_equal. by apply IH.
Qed.

Lemma string_app_nil_r s : s +:+ "" = s.
Proof.
  apply chars_inj. rewrite chars_app. cbn. by rewrite app_nil_r.
Qed.

Lemma chars_re_sub_non_word name :
  chars (re_sub_non_word name) = filter (λ c, is_word_char c = true) (chars name).
Proof.
  induction name as [|c name IH]; [done|]. cbn [re_sub_non_word chars].
  destruct (is_word_char c) eqn:Hc.
  - rewrite filter_cons_True by done. cbn [chars]. by rewrite IH.
  - rewrite filter_cons_False by (by rewrite Hc). done.
Qed.

Lemma word_string_re_sub_non_word name : word_string (re_sub_non_word name).
Proof.
  unfold word_string. rewrite chars_re_sub_non_word.
  apply Forall_forall. by intros c [Hc _]%list_elem_of_filter.
Qed.

Lemma re_sub_non_word_id s : word_string s → re_sub_non_word s = s.
Proof.
  unfold word_string. induction s as [|c s IH]; [done|]. cbn.
  intros [Hc Hs]%Forall_cons. rewrite Hc. f_equal. by apply IH.
Qed.

Lemma is_digit_word_char c : is_digit c = true → is_word_char c = true.
Proof.
  unfold is_digit, is_word_char. cbn zeta. intros ->.
  by rewrite orb_true_r.
Qed.

Lemma is_digit_pretty_N_char n : is_digit (pretty_N_char n) = true.
Proof. unfold pretty_N_char. by repeat case_match. Qed.

(** The digits [pretty_N_go] puts in front of its accumulator. *)
Lemma pretty_N_go_digits n s :
  ∃ d, pretty_N_go n s = d +:+ s ∧ digit_string d ∧ ((0 < n)%N → d ≠ "").
Proof.
  revert s. induction (N.lt_wf_0 n) as [n _ IH]; intros s.
  assert (n = 0 ∨ 0 < n)%N as [->|Hpos] by lia.
  - exists "". rewrite pretty_N_go_0. split_and!; [done|by constructor|lia].
  - rewrite pretty_N_go_step by done.
    destruct (IH (n `div` 10)%N (N.div_lt n 10 Hpos eq_refl)
                (String (pretty_N_char (n `mod` 10)) s)) as (d & -> & Hd & _).
    exists (d +:+ String (pretty_N_char (n `mod` 10)) "").
    split_and!.
    + apply chars_inj. rewrite !chars_app. cbn. by rewrite <-app_assoc.
    + unfold digit_string. rewrite chars_app. apply Forall_app. split; [done|].
      cbn. repeat constructor. apply is_digit_pretty_N_char.
    + intros _ Heq. apply (f_equal chars) in Heq. rewrite chars_app in Heq.
      cbn in Heq. by destruct (chars d).
Qed.

Lemma str_digits counter : digit_string (str counter) ∧ str counter ≠ "".
Proof.
  unfold str, pretty, pretty_nat, pretty, pretty_N. case_decide as Hz.
  - split; [|done]. repeat constructor.
  - destruct (pretty_N_go_digits (N.of_nat counter) "") as (d & -> & Hd & Hne).
    rewrite string_app_nil_r. split; [done|]. apply Hne. lia.
Qed.

#[global] Instance str_inj : Inj (=) (=) str.
Proof. unfold str. apply _. Qed.

#[global] Instance candidate_inj original_name : Inj (=) (=) (candidate original_name).
Proof.
  intros [|j] [|k] Heq; cbn [candidate] in Heq.
  - done.
  - rewrite <-(string_app_nil_r original_name) in Heq at 1.
    apply (inj (String.app _)) in Heq. discriminate Heq.
  - symmetry in Heq. rewrite <-(string_app_nil_r original_name) in Heq at 1.
    apply (inj (String.app _)) in Heq. discriminate Heq.
  - apply (inj (String.app _)) in Heq. apply (inj (String.app _)) in Heq.
    by apply (inj str) in Heq.
Qed.

Lemma candidate_suffix original_name k :
  ∃ suffix, candidate original_name k = original_name +:+ suffix ∧
            counter_suffix suffix.
Proof.
  destruct k as [|k]; cbn.
  - exists "". rewrite string_app_nil_r. split; [done|by left].
  - exists ("_" +:+ str (S k)). split; [done|]. right.
    exists (str (S k)). split; [done|]. apply and_comm, str_digits.
Qed.

Lemma counter_suffix_word suffix : counter_suffix suffix → word_string suffix.
Proof.
  intros [->|(d & -> & _ & Hd)]; [by constructor|].
  unfold word_string. rewrite chars_app. cbn. constructor; [done|].
  eapply Forall_impl; [exact Hd|]. apply is_digit_word_char.
Qed.

(** *** The inner loop *)

(** More fuel never changes a result. *)
Lemma while_name_in_seen_fuel_mono fuel fuel' seen original_name name counter r :
  while_name_in_seen fuel seen original_name name counter = Some r →
  fuel ≤ fuel' →
  while_name_in_seen fuel' seen original_name name counter = Some r.
Proof.
  revert fuel' name counter.
  induction fuel as [|fuel IH]; intros fuel' name counter Hrun Hle; [done|].
  destruct fuel' as [|fuel']; [lia|]. cbn in *.
  destruct (in_dict name seen); [|done]. apply IH; [done|lia].
Qed.

(** The names tried so far are distinct names of [seen], so the loop has
    found a free one before it has tried more names than [seen] holds. *)
Lemma while_name_in_seen_spec seen original_name (taken : list string) fuel j :
  (∀ s, in_dict s seen = true → s ∈ taken) →
  (∀ k, k < j → in_dict (candidate original_name k) seen = true) →
  length taken < j + fuel →
  ∃ k, j ≤ k ∧
    while_name_in_seen fuel seen original_name
      (candidate original_name j) (S j) = Some (candidate original_name k) ∧
    in_dict (candidate original_name k) seen = false ∧
    ∀ k', k' < k → in_dict (candidate original_name k') seen = true.
Proof.
  intros Htaken. revert j.
  induction fuel as [|fuel IH]; intros j Htried Hlen.
  - exfalso.
    assert (candidate original_name <$> seq 0 j ⊆+ taken) as Hsub.
    { apply NoDup_submseteq.
      - apply (NoDup_fmap_2 _), NoDup_seq.
      - intros s (k & -> & Hk%elem_of_seq)%list_elem_of_fmap.
        apply Htaken, Htried. lia. }
    apply submseteq_length in Hsub.
    rewrite length_fmap, length_seq in Hsub. lia.
  - cbn [while_name_in_seen].
    destruct (in_dict (candidate original_name j) seen) eqn:Hin.
    + change (original_name +:+ "_" +:+ str (S j))
        with (candidate original_name (S j)).
      destruct (IH (S j)) as (k & Hk & Hrun & Hfree & Hbelow).
      * intros k Hlt. destruct (decide (k = j)) as [->|]; [done|].
        apply Htried. lia.
      * lia.
      * exists k. split_and!; [lia|done..].
    + exists j. split_and!; done.
Qed.

(** *** The outer loop *)

(** [cleaned_names[i] = name] at the position that follows [l1]. *)
Lemma list_insert_after {A} (l1 l2 : list A) (a b : A) :
  <[length l1 := b]> (l1 ++ a :: l2) = l1 ++ b :: l2.
Proof. by rewrite <-(Nat.add_0_r (length l1)), insert_app_r. Qed.

Lemma for_enumerate_fuel_mono fuel fuel' n i seen cleaned_names out :
  for_enumerate fuel n i seen cleaned_names = Some out →
  fuel ≤ fuel' →
  for_enumerate fuel' n i seen cleaned_names = Some out.
Proof.
  intros Hrun Hle. revert i seen cleaned_names Hrun.
  induction n as [|n IH]; intros i seen cleaned_names Hrun; [done|].
  cbn in *. destruct (cleaned_names !! i) as [name|]; [|done].
  destruct (while_name_in_seen fuel seen name name 1) as [name'|] eqn:Hw; [|done].
  rewrite (while_name_in_seen_fuel_mono _ _ _ _ _ _ _ Hw Hle). by apply IH.
Qed.

Lemma clean_and_ensure_unique_fuel_mono fuel fuel' names out :
  clean_and_ensure_unique fuel names = Some out →
  fuel ≤ fuel' →
  clean_and_ensure_unique fuel' names = Some out.
Proof. apply for_enumerate_fuel_mono. Qed.

(** With [taken] the names already settled and [rest] the positions still
    to visit, the loop settles each remaining name on a candidate that is
    new. *)
Lemma for_enumerate_spec fuel (taken rest : list string) seen :
  (∀ s, in_dict s seen = true ↔ s ∈ taken) →
  NoDup taken →
  length taken + length rest ≤ fuel →
  ∃ out,
    for_enumerate fuel (length rest) (length taken) seen (taken ++ rest)
      = Some (taken ++ out) ∧
    NoDup (taken ++ out) ∧
    Forall2 (λ name name', ∃ k, name' = candidate name k) rest out.
Proof.
  revert taken seen.
  induction rest as [|name rest IH]; intros taken seen Hseen Hnodup Hfuel.
  - exists []. rewrite app_nil_r. split_and!; [done..|constructor].
  - cbn [for_enumerate length]. rewrite list_lookup_middle by done.
    destruct (while_name_in_seen_spec seen name taken fuel 0)
      as (k & _ & Hrun & Hfree & _).
    { intros s. apply Hseen. }
    { intros k Hk. lia. }
    { cbn in Hfuel. lia. }
    cbn [candidate] in Hrun. rewrite Hrun.
    set (name' := candidate name k) in *.
    assert (name' ∉ taken) as Hnew.
    { intros Hin%Hseen. congruence. }
    rewrite list_insert_after.
    destruct (IH (taken ++ [name']) (<[name' := true]> seen))
      as (out & Hout & Hnd & Hall).
    { intros s. rewrite in_dict_insert, Hseen, elem_of_app, list_elem_of_singleton.
      tauto. }
    { apply NoDup_app. split_and!; [done| |apply NoDup_singleton].
      intros s Hs ->%list_elem_of_singleton. done. }
    { rewrite length_app. cbn in *. lia. }
    rewrite length_app, Nat.add_1_r, <-!app_assoc in Hout. cbn in Hout.
    exists (name' :: out). split_and!.
    + done.
    + by rewrite <-app_assoc in Hnd.
    + constructor; [by exists k|done].
Qed.

(** A list without repetition is left as it is. *)
Lemma for_enumerate_fixed fuel (taken rest : list string) seen :
  (∀ s, in_dict s seen = true ↔ s ∈ taken) →
  NoDup (taken ++ rest) →
  0 < fuel ∨ rest = [] →
  for_enumerate fuel (length rest) (length taken) seen (taken ++ rest)
    = Some (taken ++ rest).
Proof.
  revert taken seen.
  induction rest as [|name rest IH]; intros taken seen Hseen Hnodup Hfuel; [done|].
  destruct Hfuel as [Hfuel|]; [|done].
  destruct fuel as [|fuel]; [lia|].
  cbn [for_enumerate length]. rewrite list_lookup_middle by done.
  assert (in_dict name seen = false) as Hfree.
  { apply not_true_is_false. intros Hin%Hseen.
    apply NoDup_app in Hnodup as (_ & Hdisj & _).
    apply (Hdisj name Hin). left. }
  cbn [while_name_in_seen]. rewrite Hfree.
  rewrite list_insert_after.
  replace (taken ++ name :: rest) with ((taken ++ [name]) ++ rest)
    by (by rewrite <-app_assoc).
  replace (S (length taken)) with (length (taken ++ [name]))
    by (rewrite length_app; cbn; lia).
  apply IH.
  - intros s. rewrite in_dict_insert, Hseen, elem_of_app, list_elem_of_singleton.
    tauto.
  - by rewrite <-app_assoc.
  - left. lia.
Qed.

Lemma clean_and_ensure_unique_spec fuel names :
  length names ≤ fuel →
  ∃ out,
    clean_and_ensure_unique fuel names = Some out ∧
    NoDup out ∧
    Forall2 (λ name name', ∃ k, name' = candidate (re_sub_non_word name) k)
      names out.
Proof.
  intros Hfuel. unfold clean_and_ensure_unique. cbn zeta.
  destruct (for_enumerate_spec fuel [] (re_sub_non_word <$> names) ∅)
    as (out & Hrun & Hnd & Hall).
  - intros s. rewrite in_dict_empty. split; [done|]. by intros ?%elem_of_nil.
  - constructor.
  - rewrite length_fmap. cbn. lia.
  - exists out. split_and!; [done..|]. by apply Forall2_fmap_l in Hall.
Qed.

Lemma clean_and_ensure_unique_fixed_point fuel names :
  Forall word_string names → NoDup names → length names ≤ fuel →
  clean_and_ensure_unique fuel names = Some names.
Proof.
  intros Hword Hnd Hfuel. unfold clean_and_ensure_unique. cbn zeta.
  assert (re_sub_non_word <$> names = names) as ->.
  { clear Hnd Hfuel. induction Hword as [|s names Hs _ IH]; [done|].
    cbn. by rewrite re_sub_non_word_id, IH. }
  apply (for_enumerate_fixed fuel [] names ∅).
  - intros s. rewrite in_dict_empty. split; [done|]. by intros ?%elem_of_nil.
  - done.
  - destruct names; [by right|]. left. cbn in Hfuel. lia.
Qed.

Lemma candidate_word name k : word_string (candidate (re_sub_non_word name) k).
Proof.
  destruct (candidate_suffix (re_sub_non_word name) k) as (suffix & -> & Hs).
  unfold word_string. rewrite chars_app. apply Forall_app. split.
  - apply word_string_re_sub_non_word.
  - by apply counter_suffix_word.
Qed.

(** ** The claims about [clean_and_ensure_unique] *)

(** The example of the docstring. *)
Example clean_and_ensure_unique_docstring :
  clean_and_ensure_unique 5 ["3P%"; "3P"; "Name"; "Age%"; "Age"]
  = Some ["3P"; "3P_1"; "Name"; "Age"; "Age_1"].
Proof. vm_compute. reflexivity. Qed.

(** Names that collide with earlier counters move on to the next one. *)
Example clean_and_ensure_unique_collision :
  clean_and_ensure_unique 3 ["x!"; "x"; "x_1"] = Some ["x"; "x_1"; "x_1_1"].
Proof. vm_compute. reflexivity. Qed.

(** Claim C1.  For every list of names the function returns (the loops end
    once the fuel covers the length of the list), and what it returns has
    the length of the input and no two equal elements; position by
    position it holds the cleaned name, or the cleaned name with an
    underscore and a counter appended. *)
Theorem clean_and_ensure_unique_length_distinct (names : list string) (fuel : nat) :
  length names ≤ fuel →
  ∃ out, clean_and_ensure_unique fuel names = Some out ∧
         length out = length names ∧ NoDup out ∧
         Forall2 (λ name name',
                    name' = re_sub_non_word name ∨
                    ∃ counter, name' = re_sub_non_word name +:+ "_" +:+ str counter)
           names out.
Proof.
  intros Hfuel.
  destruct (clean_and_ensure_unique_spec fuel names Hfuel) as (out & Hrun & Hnd & Hall).
  exists out. split_and!; [done| |done|].
  - symmetry. by eapply Forall2_length.
  - eapply Forall2_impl; [exact Hall|]. intros name name' [[|k] ->].
    + by left.
    + right. by exists (S k).
Qed.

Lemma clean_and_ensure_unique_length_distinct_witness :
  length ["a b"; "ab"; "ab_1"] ≤ 3 ∧
  ∃ out, clean_and_ensure_unique 3 ["a b"; "ab"; "ab_1"] = Some out ∧
         length out = length ["a b"; "ab"; "ab_1"] ∧ NoDup out.
Proof.
  split; [cbn; lia|].
  destruct (clean_and_ensure_unique_length_distinct ["a b"; "ab"; "ab_1"] 3)
    as (out & Hrun & Hlen & Hnd & _).
  { cbn. lia. }
  exists out. split_and!; assumption.
Defined.

(** Claim C2.  Every character of every returned name is an ASCII letter, a
    digit or an underscore; a returned name is its input name with exactly
    the characters outside that class removed, followed by nothing or by an
    underscore and a non-empty run of digits. *)
Theorem clean_and_ensure_unique_word_chars (names : list string) (fuel : nat) :
  length names ≤ fuel →
  ∃ out, clean_and_ensure_unique fuel names = Some out ∧
    Forall word_string out ∧
    Forall2 (λ name name', ∃ suffix,
               chars name' = filter (λ c, is_word_char c = true) (chars name)
                             ++ chars suffix ∧
               counter_suffix suffix) names out.
Proof.
  intros Hfuel.
  destruct (clean_and_ensure_unique_spec fuel names Hfuel) as (out & Hrun & _ & Hall).
  exists out. split_and!; [done|..].
  - clear Hrun Hfuel. induction Hall as [|name name' names out [k ->] _ IH].
    + constructor.
    + constructor; [apply candidate_word|done].
  - eapply Forall2_impl; [exact Hall|]. intros name name' [k ->].
    destruct (candidate_suffix (re_sub_non_word name) k) as (suffix & -> & Hs).
    exists suffix. by rewrite chars_app, chars_re_sub_non_word.
Qed.

Lemma clean_and_ensure_unique_word_chars_witness :
  length ["Age%"; "Age"] ≤ 2 ∧
  ∃ out, clean_and_ensure_unique 2 ["Age%"; "Age"] = Some out ∧
    Forall word_string out ∧
    Forall2 (λ name name', ∃ suffix,
               chars name' = filter (λ c, is_word_char c = true) (chars name)
                             ++ chars suffix ∧
               counter_suffix suffix) ["Age%"; "Age"] out.
Proof.
  split; [cbn; lia|].
  apply (clean_and_ensure_unique_word_chars ["Age%"; "Age"] 2). cbn. lia.
Defined.

(** Claim C8.  Applying the function to its own output returns that output
    unchanged. *)
Theorem clean_and_ensure_unique_idempotent (names : list string) (fuel : nat) :
  length names ≤ fuel →
  ∃ out, clean_and_ensure_unique fuel names = Some out ∧
         clean_and_ensure_unique fuel out = Some out.
Proof.
  intros Hfuel.
  destruct (clean_and_ensure_unique_spec fuel names Hfuel) as (out & Hrun & Hnd & Hall).
  exists out. split; [done|].
  apply clean_and_ensure_unique_fixed_point; [|done|].
  - clear Hrun Hnd Hfuel. induction Hall as [|name name' names out [k ->] _ IH].
    + constructor.
    + constructor; [apply candidate_word|done].
  - by rewrite <-(Forall2_length _ _ _ Hall).
Qed.

Lemma clean_and_ensure_unique_idempotent_witness :
  length ["x!"; "x"; "x_1"] ≤ 3 ∧
  ∃ out, clean_and_ensure_unique 3 ["x!"; "x"; "x_1"] = Some out ∧
         clean_and_ensure_unique 3 out = Some out.
Proof.
  split; [cbn; lia|].
  apply (clean_and_ensure_unique_idempotent ["x!"; "x"; "x_1"] 3). cbn. lia.
Defined.

(** ** Facts about the wrapper *)

Lemma os_path_join_predictor_file (model_dir_path : string) :
  ∃ sep, (sep = "" ∨ sep = "/") ∧
    os_path_join model_dir_path PREDICTOR_FILE_NAME
    = model_dir_path +:+ sep +:+ "predictor.joblib".
Proof.
  unfold os_path_join, PREDICTOR_FILE_NAME.
  change (String.prefix "/" "predictor.joblib") with false. cbv iota.
  destruct (bool_decide (model_dir_path = "") || endswith_sep model_dir_path).
  - exists "". split; [by left|done].
  - exists "/". split; [by right|done].
Qed.

Lemma endswith_sep_spec (path : string) :
  endswith_sep path = true ↔ ∃ p, path = p +:+ "/".
Proof.
  induction path as [|c path IH].
  - split; [done|]. intros [[|d p] Hp]; discriminate Hp.
  - destruct path as [|d path].
    + cbn [endswith_sep]. rewrite bool_decide_eq_true. split.
      * intros ->. by exists "".
      * intros [[|e [|e' p]] Hp]; [by injection Hp|discriminate Hp..].
    + change (endswith_sep (String c (String d path)))
        with (endswith_sep (String d path)).
      rewrite IH. split.
      * intros [p ->]. by exists (String c p).
      * intros [[|e p] Hp]; [discriminate Hp|].
        change (String e p +:+ "/") with (String e (p +:+ "/")) in Hp.
        injection Hp as _ Hp. by exists p.
Qed.

(** The file [save] and [load] use: the directory path, a ["/"] unless the
    directory path is empty or ends in one already, and [predictor.joblib]. *)
Lemma os_path_join_predictor_file_sep (model_dir_path : string) :
  ∃ sep, (sep = "" ∨ sep = "/") ∧
    (sep = "/" ↔ model_dir_path ≠ "" ∧ ∀ p, model_dir_path ≠ p +:+ "/") ∧
    os_path_join model_dir_path PREDICTOR_FILE_NAME
    = model_dir_path +:+ sep +:+ "predictor.joblib".
Proof.
  unfold os_path_join, PREDICTOR_FILE_NAME.
  change (String.prefix "/" "predictor.joblib") with false. cbv iota.
  destruct (bool_decide (model_dir_path = "")) eqn:Hempty; cbn [orb].
  - apply bool_decide_eq_true in Hempty. exists "".
    split_and!; [by left| |done]. split; [done|]. by intros [? _].
  - apply bool_decide_eq_false in Hempty.
    destruct (endswith_sep model_dir_path) eqn:Hends.
    + apply endswith_sep_spec in Hends as [p Hp]. exists "".
      split_and!; [by left| |done]. split; [done|].
      intros [_ Hno]. by destruct (Hno p).
    + exists "/". split_and!; [by right| |done]. split; [|done].
      intros _. split; [done|]. intros p Hp.
      assert (endswith_sep model_dir_path = true) as Htrue
        by (apply endswith_sep_spec; by exists p).
      congruence.
Qed.

Example os_path_join_samples :
  os_path_join "model" PREDICTOR_FILE_NAME = "model/predictor.joblib" ∧
  os_path_join "model/" PREDICTOR_FILE_NAME = "model/predictor.joblib" ∧
  os_path_join "" PREDICTOR_FILE_NAME = "predictor.joblib".
Proof. by vm_compute. Qed.

Lemma df_drop_columns_target (label : string) (df : DataFrame) :
  label ∈ df_columns df →
  df_drop_columns [label] df = inr (filter (λ c, c.1 ≠ label) df).
Proof.
  intros Hin. unfold df_drop_columns.
  rewrite filter_cons_False by (intros Hn; by apply Hn).
  rewrite filter_nil. f_equal. apply list_filter_iff.
  intros c. by rewrite list_elem_of_singleton.
Qed.

Lemma df_drop_columns_missing (label : string) (df : DataFrame) :
  label ∉ df_columns df → df_drop_columns [label] df = inl (KeyError label).
Proof.
  intros Hin. unfold df_drop_columns. by rewrite filter_cons_True by done.
Qed.

Lemma filter_none {A} (P : A → Prop) `{∀ a, Decision (P a)} (l : list A) :
  (∀ a, a ∈ l → ¬ P a) → filter P l = [].
Proof.
  intros Hnone. induction l as [|a l IH]; [done|].
  rewrite filter_cons_False.
  - apply IH. intros b Hb. apply Hnone. by right.
  - apply Hnone. left.
Qed.

Lemma filter_all {A} (P : A → Prop) `{∀ a, Decision (P a)} (l : list A) :
  (∀ a, a ∈ l → P a) → filter P l = l.
Proof.
  intros Hall. induction l as [|a l IH]; [done|].
  rewrite filter_cons_True.
  - f_equal. apply IH. intros b Hb. apply Hall. by right.
  - apply Hall. left.
Qed.

Lemma label_of_column (df : DataFrame) (c : string * list scalar) :
  c ∈ df → c.1 ∈ df_columns df.
Proof. intros Hc. apply list_elem_of_fmap. by exists c. Qed.

(** A frame that carries the label on one column only. *)
Lemma df_split_target (before after : DataFrame) (label : string)
    (values : list scalar) :
  label ∉ df_columns before → label ∉ df_columns after →
  filter (λ c, c.1 ≠ label) (before ++ (label, values) :: after)
    = before ++ after ∧
  filter (λ c, c.1 = label) (before ++ (label, values) :: after)
    = [(label, values)].
Proof.
  intros Hb Ha.
  assert (∀ df : DataFrame, label ∉ df_columns df →
            ∀ c, c ∈ df → c.1 ≠ label) as Hother.
  { intros df Hdf c Hc%label_of_column Heq. by rewrite Heq in Hc. }
  rewrite !filter_app.
  rewrite filter_cons_False by (intros Hn; by apply Hn).
  rewrite filter_cons_True by done.
  rewrite !filter_all, !filter_none by eauto. done.
Qed.

Section wrapper_facts.
Context `{Engine} `{!Disk}.

(** The steps of the constructor, read off a run that returned. *)
Lemma init_inversion train_input schema0 disk self :
  __init__ train_input schema0 disk = inr self →
  ∃ x0 y0 config task_time model_time incl seed_value engine,
    df_drop_columns [target schema0] train_input = inr x0 ∧
    df_getitem (target schema0) train_input = inr y0 ∧
    read_json_as_dict MODEL_CONFIG_FILE_PATH disk = inr config ∧
    config !! "task_time" = Some task_time ∧
    config !! "model_time" = Some model_time ∧
    config !! "include" = Some incl ∧
    config !! "seed_value" = Some seed_value ∧
    AutoSklearnClassifier
      {| time_left_for_this_task := task_time;
         per_run_time_limit := model_time;
         arg_metric :=
           if decide (model_category schema0 = "binary_classification")
           then f1 else f1_macro;
         include := incl;
         seed := seed_value |} = inr engine ∧
    self = {| _is_trained := false; x := x0; y := y0; schema := schema0;
              model_name := "auto_sklearn_classifier";
              model_config := config; automl := engine |}.
Proof.
  unfold __init__, mbind, result_bind, mret, result_ret, dict_getitem, lift_io.
  intros Hrun.
  destruct (df_drop_columns _ _) as [|x0]; [done|].
  destruct (df_getitem _ _) as [|y0]; [done|].
  destruct (read_json_as_dict _ _) as [|config]; [done|].
  destruct (config !! "task_time") as [task_time|] eqn:Ht; [|done].
  destruct (config !! "model_time") as [model_time|] eqn:Hm; [|done].
  destruct (config !! "include") as [incl|] eqn:Hi; [|done].
  destruct (config !! "seed_value") as [seed_value|] eqn:Hs; [|done].
  destruct (AutoSklearnClassifier _) as [|engine] eqn:Hengine; [done|].
  exists x0, y0, config, task_time, model_time, incl, seed_value, engine.
  injection Hrun as <-. split_and!; done.
Qed.

(** The constructor returns when the target is a column, the configuration
    file holds the four keys and the engine's constructor returns. *)
Lemma init_returns train_input schema0 disk config
    task_time model_time incl seed_value engine :
  target schema0 ∈ df_columns train_input →
  read_json_as_dict MODEL_CONFIG_FILE_PATH disk = inr config →
  config !! "task_time" = Some task_time →
  config !! "model_time" = Some model_time →
  config !! "include" = Some incl →
  config !! "seed_value" = Some seed_value →
  AutoSklearnClassifier
    {| time_left_for_this_task := task_time;
       per_run_time_limit := model_time;
       arg_metric :=
         if decide (model_category schema0 = "binary_classification")
         then f1 else f1_macro;
       include := incl;
       seed := seed_value |} = inr engine →
  ∃ self, __init__ train_input schema0 disk = inr self.
Proof.
  intros Hin Hread Ht Hm Hi Hs Hengine.
  unfold __init__, mbind, result_bind, mret, result_ret, dict_getitem, lift_io.
  rewrite df_drop_columns_target by done.
  assert (∃ y0, df_getitem (target schema0) train_input = inr y0) as [y0 ->].
  { unfold df_getitem.
    apply list_elem_of_fmap in Hin as ([l values] & Hl & Hin).
    destruct (filter _ train_input) as [|c [|c' cs]] eqn:Hf; [|by eauto..].
    exfalso. eapply elem_of_nil. rewrite <-Hf.
    apply list_elem_of_filter. split; [by symmetry|done]. }
  rewrite Hread, Ht, Hm, Hi, Hs, Hengine. by eexists.
Qed.

(** Without the target column the constructor raises [KeyError]. *)
Lemma init_missing_target train_input schema0 disk :
  target schema0 ∉ df_columns train_input →
  __init__ train_input schema0 disk = inl (KeyError (target schema0)).
Proof.
  intros Hin. unfold __init__, mbind, result_bind.
  by rewrite df_drop_columns_missing.
Qed.

Lemma save_untrained self model_dir_path disk :
  _is_trained self = false →
  save model_dir_path (self, disk)
  = (inl (NotFittedError "Model is not fitted yet."), (self, disk)).
Proof. intros Hflag. unfold save. by rewrite Hflag. Qed.

Lemma save_trained self model_dir_path disk :
  _is_trained self = true →
  save model_dir_path (self, disk)
  = match joblib_dump self
            (os_path_join model_dir_path PREDICTOR_FILE_NAME) disk with
    | inl msg => (inl (OSError msg), (self, disk))
    | inr disk' => (inr (), (self, disk'))
    end.
Proof. intros Hflag. unfold save. by rewrite Hflag. Qed.

(** [save_predictor_model] returns normally exactly when the directory
    is there or [os.makedirs] creates it, and [joblib.dump] then succeeds. *)
Lemma save_predictor_model_returns model predictor_dir_path disk disk' :
  _is_trained model = true →
  save_predictor_model predictor_dir_path (model, disk)
    = (inr (), (model, disk')) ↔
  ∃ disk1,
    (if os_path_exists predictor_dir_path disk then disk1 = disk
     else os_makedirs predictor_dir_path disk = inr disk1) ∧
    joblib_dump model (os_path_join predictor_dir_path PREDICTOR_FILE_NAME)
      disk1 = inr disk'.
Proof.
  intros Hflag. unfold save_predictor_model.
  destruct (os_path_exists predictor_dir_path disk); cbn [negb].
  - rewrite save_trained by done. split.
    + intros Hrun. exists disk. split; [done|].
      destruct (joblib_dump _ _ _); congruence.
    + intros (disk1 & -> & ->). done.
  - destruct (os_makedirs predictor_dir_path disk) as [msg|disk1].
    + split; [done|]. by intros (disk1 & ? & _).
    + rewrite save_trained by done. split.
      * intros Hrun. exists disk1. split; [done|].
        destruct (joblib_dump _ _ _); congruence.
      * intros (disk2 & [= <-] & ->). done.
Qed.
End wrapper_facts.

(** ** The claims about the wrapper *)

Section wrapper_claims.
Context `{Engine} `{!Disk}.

(** Claim C3.  [save] raises [NotFittedError] exactly when [_is_trained]
    is false; on a trained object its outcome is that of [joblib.dump] of
    the object to [predictor.joblib] in the given directory: the file's path
    is the directory path, then a ["/"] exactly when the directory path is
    not empty and does not end in ["/"] already, then [predictor.joblib];
    a normal return leaves there a file that loads back as the object.
    [predict], [predict_proba] and [train] hand back what the engine
    answers whatever the flag says, and [load] is [joblib.load] of that
    same file: none of them checks the flag. *)
Theorem save_is_the_only_fitted_guard (self : Classifier)
    (model_dir_path : string) (disk : fs) (inputs : DataFrame) :
  ((∃ msg, (save model_dir_path (self, disk)).1 = inl (NotFittedError msg))
     ↔ _is_trained self = false) ∧
  (_is_trained self = true →
     ∃ sep, (sep = "" ∨ sep = "/") ∧
       (sep = "/" ↔ model_dir_path ≠ "" ∧ ∀ p, model_dir_path ≠ p +:+ "/") ∧
       let file := model_dir_path +:+ sep +:+ "predictor.joblib" in
       save model_dir_path (self, disk)
         = match joblib_dump self file disk with
           | inl msg => (inl (OSError msg), (self, disk))
           | inr disk' => (inr (), (self, disk'))
           end ∧
       ∀ disk', joblib_dump self file disk = inr disk' →
                joblib_load file disk' = inr self) ∧
  (predict inputs (self, disk)).1 = automl_predict (automl self) inputs ∧
  (predict_proba inputs (self, disk)).1
    = automl_predict_proba (automl self) inputs ∧
  (train (self, disk)).1 = (automl_fit (automl self) (x self) (y self)).1 ∧
  load model_dir_path disk
    = lift_io (joblib_load (os_path_join model_dir_path PREDICTOR_FILE_NAME) disk) ∧
  (∃ sep, (sep = "" ∨ sep = "/") ∧
     (sep = "/" ↔ model_dir_path ≠ "" ∧ ∀ p, model_dir_path ≠ p +:+ "/") ∧
     load model_dir_path disk
       = lift_io (joblib_load
                    (model_dir_path +:+ sep +:+ "predictor.joblib") disk)).
Proof.
  split_and!.
  - destruct (_is_trained self) eqn:Hflag.
    + rewrite save_trained by done. split; [|done].
      intros [msg Hraise]. destruct (joblib_dump _ _ _); discriminate Hraise.
    + rewrite save_untrained by done. split; [done|]. intros _. by eexists.
  - intros Hflag.
    destruct (os_path_join_predictor_file_sep model_dir_path)
      as (sep & Hsep & Hslash & Hfile).
    exists sep. split; [done|]. split; [done|]. cbv zeta. rewrite <-Hfile. split.
    + by apply save_trained.
    + intros disk'. apply joblib_load_dump.
  - done.
  - done.
  - unfold train. destruct (automl_fit _ _ _) as [[e|[]] fitted]; done.
  - done.
  - destruct (os_path_join_predictor_file_sep model_dir_path)
      as (sep & Hsep & Hslash & Hfile).
    exists sep. split; [done|]. split; [done|]. unfold load. by rewrite Hfile.
Qed.

(** Claim C4.  For a trained object, [save_predictor_model] returns
    normally exactly when the directory exists or [os.makedirs] creates
    it, and [joblib.dump] then writes the file; after a normal return
    [load_predictor_model] on the same path returns the object that was
    saved, field for field. *)
Theorem save_load_predictor_model_round_trip (model : Classifier)
    (predictor_dir_path : string) (disk : fs) :
  _is_trained model = true →
  (∀ disk',
     save_predictor_model predictor_dir_path (model, disk)
       = (inr (), (model, disk')) ↔
     ∃ disk1,
       (if os_path_exists predictor_dir_path disk then disk1 = disk
        else os_makedirs predictor_dir_path disk = inr disk1) ∧
       joblib_dump model
         (os_path_join predictor_dir_path PREDICTOR_FILE_NAME) disk1
         = inr disk') ∧
  (∀ model' disk',
     save_predictor_model predictor_dir_path (model, disk)
       = (inr (), (model', disk')) →
     model' = model ∧
     ∃ loaded,
       load_predictor_model predictor_dir_path disk' = inr loaded ∧
       loaded = model ∧ _is_trained loaded = true).
Proof.
  intros Hflag. split.
  - intros disk'. by apply save_predictor_model_returns.
  - intros model' disk' Hrun.
    assert (model' = model ∧
            ∃ disk1, joblib_dump model
              (os_path_join predictor_dir_path PREDICTOR_FILE_NAME) disk1
              = inr disk') as [-> [disk1 Hdump]].
    { unfold save_predictor_model in Hrun.
      destruct (negb (os_path_exists predictor_dir_path disk)).
      - destruct (os_makedirs predictor_dir_path disk) as [|disk1]; [done|].
        rewrite save_trained in Hrun by done.
        destruct (joblib_dump _ _ disk1) eqn:Hdump; simplify_eq. eauto.
      - rewrite save_trained in Hrun by done.
        destruct (joblib_dump _ _ disk) eqn:Hdump; simplify_eq. eauto. }
    assert (load_predictor_model predictor_dir_path disk' = inr model) as Hload.
    { unfold load_predictor_model, load.
      by rewrite (joblib_load_dump _ _ _ _ Hdump). }
    split; [done|]. by exists model.
Qed.

(** Claim C5, as the code has it.  The wrapper never calls
    [clean_and_ensure_unique]: the frame handed to the engine's [fit] is
    the training frame without the target column, its labels as they
    were, and the frame handed to [predict] and [predict_proba] is the
    caller's frame. *)
Theorem classifier_hands_frames_on_unchanged (train_input : DataFrame)
    (schema0 : ClassificationSchema) (disk : fs) (self : Classifier)
    (inputs : DataFrame) :
  __init__ train_input schema0 disk = inr self →
  df_columns (x self)
    = filter (λ label, label ≠ target schema0) (df_columns train_input) ∧
  (train (self, disk)).1 = (automl_fit (automl self) (x self) (y self)).1 ∧
  automl (train (self, disk)).2.1
    = (automl_fit (automl self) (x self) (y self)).2 ∧
  predict inputs (self, disk)
    = (automl_predict (automl self) inputs, (self, disk)) ∧
  predict_proba inputs (self, disk)
    = (automl_predict_proba (automl self) inputs, (self, disk)).
Proof.
  intros Hinit.
  apply init_inversion in Hinit
    as (x0 & y0 & config & t & m & i & s & engine & Hdrop & _ & _ & _ & _ & _ & _ & _ & ->).
  cbn [x y automl]. split_and!; [| | |done..].
  - destruct (decide (target schema0 ∈ df_columns train_input)) as [Hin|Hin].
    + rewrite df_drop_columns_target in Hdrop by done.
      injection Hdrop as <-. clear.
      induction train_input as [|c df IH]; [done|]. cbn [fmap list_fmap].
      unfold df_columns in *. rewrite !fmap_cons, !filter_cons.
      destruct (decide (c.1 ≠ target schema0)); [|done].
      rewrite fmap_cons. by f_equal.
    + by rewrite df_drop_columns_missing in Hdrop.
  - unfold train. cbn [automl x y].
    destruct (automl_fit _ _ _) as [[e|[]] fitted]; done.
  - unfold train. cbn [automl x y].
    destruct (automl_fit _ _ _) as [[e|[]] fitted]; done.
Qed.

(** Claim C6.  [predict_with_model] returns the engine's [predict_proba]
    answer on the data when [return_proba] is set and its [predict]
    answer otherwise, and touches neither the model nor the disk. *)
Theorem predict_with_model_is_the_engine (model : Classifier)
    (data : DataFrame) (return_proba : bool) (disk : fs) :
  predict_with_model data return_proba (model, disk)
  = (if return_proba then automl_predict_proba (automl model) data
     else automl_predict (automl model) data,
     (model, disk)).
Proof. by destruct return_proba. Qed.

(** Claim C7.  A constructed object holds the engine built from the
    configuration file: the budget arguments, [include] and [seed] are the
    values under [task_time], [model_time], [include] and [seed_value],
    and the metric is [f1] for a binary schema and [f1_macro] otherwise. *)
Theorem init_builds_engine_from_config (train_input : DataFrame)
    (schema0 : ClassificationSchema) (disk : fs) (self : Classifier) :
  __init__ train_input schema0 disk = inr self →
  read_json_as_dict MODEL_CONFIG_FILE_PATH disk = inr (model_config self) ∧
  ∃ args,
    AutoSklearnClassifier args = inr (automl self) ∧
    model_config self !! "task_time" = Some (time_left_for_this_task args) ∧
    model_config self !! "model_time" = Some (per_run_time_limit args) ∧
    model_config self !! "seed_value" = Some (seed args) ∧
    model_config self !! "include" = Some (include args) ∧
    (model_category schema0 = "binary_classification" → arg_metric args = f1) ∧
    (model_category schema0 ≠ "binary_classification" →
       arg_metric args = f1_macro).
Proof.
  intros Hinit.
  apply init_inversion in Hinit
    as (x0 & y0 & config & t & m & i & s & engine
        & _ & _ & Hread & Ht & Hm & Hi & Hs & Hengine & ->).
  cbn [model_config automl]. split; [done|].
  eexists. split; [exact Hengine|]. cbn.
  split_and!; [done..| |]; intros Hcat; by case_decide.
Qed.

(** Claim C9.  On a training frame that has the target column the
    constructor returns once the configuration file holds the four keys and
    the engine's constructor returns, and the
    constructed object has [_is_trained] false, the schema it was given,
    as [x] the columns of the frame that do not carry the target label, in
    order, and as [y] what indexing the frame by the target gives; when one
    column carries the label, [x] is the frame without that column and [y]
    is that column. *)
Theorem init_sets_fields (train_input : DataFrame)
    (schema0 : ClassificationSchema) (disk : fs) :
  target schema0 ∈ df_columns train_input →
  (∀ config task_time model_time incl seed_value engine,
     read_json_as_dict MODEL_CONFIG_FILE_PATH disk = inr config →
     config !! "task_time" = Some task_time →
     config !! "model_time" = Some model_time →
     config !! "include" = Some incl →
     config !! "seed_value" = Some seed_value →
     AutoSklearnClassifier
       {| time_left_for_this_task := task_time;
          per_run_time_limit := model_time;
          arg_metric :=
            if decide (model_category schema0 = "binary_classification")
            then f1 else f1_macro;
          include := incl;
          seed := seed_value |} = inr engine →
     ∃ self, __init__ train_input schema0 disk = inr self) ∧
  ∀ self,
    __init__ train_input schema0 disk = inr self →
    _is_trained self = false ∧
    schema self = schema0 ∧
    x self = filter (λ c, c.1 ≠ target schema0) train_input ∧
    df_getitem (target schema0) train_input = inr (y self) ∧
    ∀ before values after,
      train_input = before ++ (target schema0, values) :: after →
      target schema0 ∉ df_columns before →
      target schema0 ∉ df_columns after →
      x self = before ++ after ∧ y self = Series (target schema0) values.
Proof.
  intros Hin. split; [intros; by eapply init_returns|]. intros self Hinit.
  apply init_inversion in Hinit
    as (x0 & y0 & config & t & m & i & s & engine
        & Hdrop & Hget & _ & _ & _ & _ & _ & _ & ->).
  cbn [_is_trained schema x y].
  rewrite df_drop_columns_target in Hdrop by done. injection Hdrop as <-.
  split_and!; [done..|].
  intros before values after -> Hb Ha.
  destruct (df_split_target before after _ values Hb Ha) as [Hx Hy].
  split; [done|]. unfold df_getitem in Hget. rewrite Hy in Hget.
  by injection Hget as <-.
Qed.

(** Claim C10.  [predict] and [predict_proba] leave the object (and the
    disk) as they found them; [save] leaves the object as it found it
    whatever its outcome, and on the [NotFittedError] path the disk too. *)
Theorem predict_and_save_leave_the_object (self : Classifier)
    (inputs : DataFrame) (model_dir_path : string) (disk : fs) :
  (predict inputs (self, disk)).2 = (self, disk) ∧
  (predict_proba inputs (self, disk)).2 = (self, disk) ∧
  (save model_dir_path (self, disk)).2.1 = self ∧
  (_is_trained self = false →
     save model_dir_path (self, disk)
     = (inl (NotFittedError "Model is not fitted yet."), (self, disk))).
Proof.
  split_and!; [done..| |].
  - unfold save. destruct (negb (_is_trained self)); [done|].
    by destruct (joblib_dump _ _ _).
  - apply save_untrained.
Qed.
End wrapper_claims.

(** ** The claims on the sample run *)

Example sample_init :
  @__init__ RecordingEngine MemDisk sample_train_input sample_schema sample_disk
  = inr sample_classifier.
Proof. vm_compute. reflexivity. Qed.

Example sample_train :
  @train RecordingEngine MemDisk (sample_classifier, sample_disk)
  = (inr (), (sample_trained, sample_disk)).
Proof. vm_compute. reflexivity. Qed.

Lemma save_load_predictor_model_round_trip_witness :
  _is_trained sample_trained = true ∧
  @save_predictor_model RecordingEngine MemDisk "model"
    (sample_trained, sample_disk) = (inr (), (sample_trained, saved_disk)) ∧
  @load_predictor_model RecordingEngine MemDisk "model" saved_disk
    = inr sample_trained.
Proof.
  split; [reflexivity|].
  destruct (@save_load_predictor_model_round_trip RecordingEngine MemDisk
              sample_trained "model" sample_disk eq_refl) as [Hreturns Hround].
  assert (@save_predictor_model RecordingEngine MemDisk "model"
            (sample_trained, sample_disk)
          = (inr (), (sample_trained, saved_disk))) as Hsave.
  { apply Hreturns. exists (<["model" := Directory]> sample_disk).
    split; vm_compute; reflexivity. }
  split; [exact Hsave|].
  destruct (Hround _ _ Hsave) as (_ & loaded & Hload & -> & _). exact Hload.
Defined.

(** Claim C5, as the claim has it, fails: on the sample frame the engine is
    fitted on the label ["Age%"] and predicts on the label ["Age%"], while
    [clean_and_ensure_unique] turns that label into ["Age"]. *)
Lemma classifier_does_not_clean_column_names :
  @__init__ RecordingEngine MemDisk sample_train_input sample_schema sample_disk
    = inr sample_classifier ∧
  @train RecordingEngine MemDisk (sample_classifier, sample_disk)
    = (inr (), (sample_trained, sample_disk)) ∧
  rec_fit_columns (automl sample_trained) = Some ["Age%"] ∧
  (@predict RecordingEngine MemDisk [("Age%", [SInt 52])]
     (sample_trained, sample_disk)).1 = inr ["Age%"] ∧
  (@predict_proba RecordingEngine MemDisk [("Age%", [SInt 52])]
     (sample_trained, sample_disk)).1 = inr ["Age%"] ∧
  clean_and_ensure_unique 1 ["Age%"] = Some ["Age"] ∧
  ["Age%"] ≠ ["Age"].
Proof.
  split_and!; [vm_compute; reflexivity..|]. discriminate.
Qed.

Lemma classifier_hands_frames_on_unchanged_witness :
  @__init__ RecordingEngine MemDisk sample_train_input sample_schema sample_disk
    = inr sample_classifier ∧
  df_columns (x sample_classifier)
    = filter (λ label, label ≠ "label") (df_columns sample_train_input) ∧
  @predict RecordingEngine MemDisk [("Age%", [SInt 52])]
    (sample_classifier, sample_disk)
    = (inr ["Age%"], (sample_classifier, sample_disk)).
Proof.
  assert (@__init__ RecordingEngine MemDisk sample_train_input sample_schema
            sample_disk = inr sample_classifier) as Hinit
    by (vm_compute; reflexivity).
  split; [exact Hinit|].
  destruct (@classifier_hands_frames_on_unchanged RecordingEngine MemDisk
              sample_train_input sample_schema sample_disk sample_classifier
              [("Age%", [SInt 52])] Hinit) as (Hx & _ & _ & Hpredict & _).
  split; [exact Hx|exact Hpredict].
Defined.

Lemma init_builds_engine_from_config_witness :
  @__init__ RecordingEngine MemDisk sample_train_input sample_schema sample_disk
    = inr sample_classifier ∧
  mem_read_json "model_config.json" sample_disk
    = inr (model_config sample_classifier).
Proof.
  assert (@__init__ RecordingEngine MemDisk sample_train_input sample_schema
            sample_disk = inr sample_classifier) as Hinit
    by (vm_compute; reflexivity).
  split; [exact Hinit|].
  exact (proj1 (@init_builds_engine_from_config RecordingEngine MemDisk
                  sample_train_input sample_schema sample_disk
                  sample_classifier Hinit)).
Defined.

Lemma init_sets_fields_witness :
  "label" ∈ df_columns sample_train_input ∧
  @__init__ RecordingEngine MemDisk sample_train_input sample_schema sample_disk
    = inr sample_classifier ∧
  x sample_classifier = [("Age%", [SInt 31; SInt 47])] ∧
  y sample_classifier = Series "label" [SInt 0; SInt 1].
Proof.
  assert ("label" ∈ df_columns sample_train_input) as Hin.
  { right. left. }
  assert (@__init__ RecordingEngine MemDisk sample_train_input sample_schema
            sample_disk = inr sample_classifier) as Hinit
    by (vm_compute; reflexivity).
  split; [exact Hin|]. split; [exact Hinit|].
  destruct (@init_sets_fields RecordingEngine MemDisk sample_train_input
              sample_schema sample_disk Hin) as [_ Hfields].
  destruct (Hfields sample_classifier Hinit) as (_ & _ & _ & _ & Hsplit).
  apply (Hsplit [("Age%", [SInt 31; SInt 47])] [SInt 0; SInt 1] []).
  - reflexivity.
  - cbn. intros [Heq|Hnil%elem_of_nil]%elem_of_cons; [discriminate Heq|done].
  - apply not_elem_of_nil.
Defined.

(** ** Further properties of [clean_and_ensure_unique] *)

(** A run of the inner loop that returns, returns the first free candidate. *)
Lemma while_name_in_seen_first_free seen original_name fuel j r :
  (∀ k, k < j → in_dict (candidate original_name k) seen = true) →
  while_name_in_seen fuel seen original_name
    (candidate original_name j) (S j) = Some r →
  ∃ k, r = candidate original_name k ∧ in_dict r seen = false ∧
       ∀ k', k' < k → in_dict (candidate original_name k') seen = true.
Proof.
  revert j. induction fuel as [|fuel IH]; intros j Htried Hrun; [done|].
  cbn [while_name_in_seen] in Hrun.
  destruct (in_dict (candidate original_name j) seen) eqn:Hin.
  - change (original_name +:+ "_" +:+ str (S j))
      with (candidate original_name (S j)) in Hrun.
    apply (IH (S j)); [|done].
    intros k Hlt. destruct (decide (k = j)) as [->|]; [done|].
    apply Htried. lia.
  - injection Hrun as <-. by exists j.
Qed.

Lemma for_enumerate_settled fuel (taken rest : list string) seen res :
  (∀ s, in_dict s seen = true ↔ s ∈ taken) →
  for_enumerate fuel (length rest) (length taken) seen (taken ++ rest)
    = Some res →
  ∃ out, res = taken ++ out ∧ settled taken rest out.
Proof.
  revert taken seen.
  induction rest as [|name rest IH]; intros taken seen Hseen Hrun.
  - injection Hrun as <-. exists []. split; [done|constructor].
  - cbn [for_enumerate length] in Hrun.
    rewrite list_lookup_middle in Hrun by done.
    destruct (while_name_in_seen fuel seen name name 1) as [name'|] eqn:Hw;
      [|done].
    destruct (while_name_in_seen_first_free seen name fuel 0 name')
      as (k & Hk & Hfree & Hbelow); [intros k Hk; lia|done|].
    rewrite list_insert_after in Hrun.
    replace (taken ++ name' :: rest) with ((taken ++ [name']) ++ rest) in Hrun
      by (by rewrite <-app_assoc).
    replace (S (length taken)) with (length (taken ++ [name'])) in Hrun
      by (rewrite length_app; cbn; lia).
    apply IH in Hrun as (out & -> & Hout).
    + exists (name' :: out). split; [by rewrite <-app_assoc|].
      constructor; [|done]. exists k. split_and!; [done| |].
      * intros Hin%Hseen. congruence.
      * intros k' Hk'. by apply Hseen, Hbelow.
    + intros s. rewrite in_dict_insert, Hseen, elem_of_app,
        list_elem_of_singleton. tauto.
Qed.

Lemma clean_and_ensure_unique_settled fuel names out :
  clean_and_ensure_unique fuel names = Some out →
  settled [] (re_sub_non_word <$> names) out.
Proof.
  intros Hrun.
  destruct (for_enumerate_settled fuel [] (re_sub_non_word <$> names) ∅ out)
    as (out' & -> & Hout); [|exact Hrun|exact Hout].
  intros s. rewrite in_dict_empty. split; [done|]. by intros ?%elem_of_nil.
Qed.

Lemma first_free_unique taken name a b :
  first_free taken name a → first_free taken name b → a = b.
Proof.
  intros (ka & -> & Ha & Hbelow_a) (kb & -> & Hb & Hbelow_b).
  destruct (Nat.lt_trichotomy ka kb) as [Hlt|[->|Hlt]].
  - destruct Ha. by apply Hbelow_b.
  - done.
  - destruct Hb. by apply Hbelow_a.
Qed.

Lemma settled_functional taken rest out out' :
  settled taken rest out → settled taken rest out' → out = out'.
Proof.
  intros Hout. revert out'.
  induction Hout as [|taken name name' rest out Hfree _ IH]; intros out' Hout'.
  - by inversion Hout'.
  - inversion Hout' as [|? ? name'' ? out'' Hfree' Hrest]; subst.
    assert (name'' = name') as -> by (by eapply first_free_unique).
    f_equal. by apply IH.
Qed.

Lemma settled_length taken rest out :
  settled taken rest out → length out = length rest.
Proof. induction 1; cbn; by f_equal. Qed.

Lemma settled_lookup taken rest out i name' :
  settled taken rest out → out !! i = Some name' →
  ∃ name, rest !! i = Some name ∧ first_free (taken ++ take i out) name name'.
Proof.
  intros Hout. revert i.
  induction Hout as [|taken name name0 rest out Hfree _ IH]; intros i Hi; [done|].
  destruct i as [|i]; cbn in Hi.
  - injection Hi as <-. exists name. split; [done|]. cbn. by rewrite app_nil_r.
  - destruct (IH i Hi) as (name1 & Hname1 & Hfree1).
    exists name1. split; [done|]. cbn. by rewrite <-app_assoc in Hfree1.
Qed.

Lemma settled_app_inv taken rest1 rest2 out :
  settled taken (rest1 ++ rest2) out →
  ∃ out1 out2, out = out1 ++ out2 ∧ settled taken rest1 out1 ∧
               settled (taken ++ out1) rest2 out2.
Proof.
  revert taken out.
  induction rest1 as [|name rest1 IH]; intros taken out Hout.
  - exists [], out. rewrite app_nil_r. split_and!; [done|constructor|done].
  - inversion Hout as [|? ? name' ? out' Hfree Hrest]; subst.
    destruct (IH _ _ Hrest) as (out1 & out2 & -> & H1 & H2).
    exists (name' :: out1), out2. split_and!; [done|by constructor|].
    by rewrite <-app_assoc in H2.
Qed.


(** [n] copies of a name are settled on the candidates [j], [j+1], ... once
    the candidates below [j] are taken. *)
Lemma settled_replicate name j n :
  settled (candidate name <$> seq 0 j) (replicate n name)
          (candidate name <$> seq j n).
Proof.
  revert j. induction n as [|n IH]; intros j; [constructor|].
  cbn [replicate seq fmap list_fmap]. constructor.
  - exists j. split_and!; [done| |].
    + intros (k & Hk%(inj _) & Hin%elem_of_seq)%list_elem_of_fmap. lia.
    + intros k Hk. apply list_elem_of_fmap. exists k.
      split; [done|]. apply elem_of_seq. lia.
  - specialize (IH (S j)). by rewrite seq_S, fmap_app in IH.
Qed.

(** Property X1.  The function returns (fuel covering the length of the
    list), and each returned name is the first free candidate for its
    position: with the cleaned input name as candidate 0 and the cleaned
    name followed by an underscore and [k] as candidate [k], it is the
    candidate of least index that none of the names returned before it
    equals. *)
Theorem clean_and_ensure_unique_first_free (names : list string) (fuel : nat) :
  length names ≤ fuel →
  ∃ out,
    clean_and_ensure_unique fuel names = Some out ∧
    ∀ i name', out !! i = Some name' →
      ∃ name k, names !! i = Some name ∧
        name' = candidate (re_sub_non_word name) k ∧
        (name' ∉ take i out) ∧
        (∀ k', k' < k → candidate (re_sub_non_word name) k' ∈ take i out).
Proof.
  intros Hfuel.
  destruct (clean_and_ensure_unique_spec fuel names Hfuel)
    as (out & Hout & _ & _).
  exists out. split; [done|]. intros i name' Hi.
  apply clean_and_ensure_unique_settled in Hout.
  destruct (settled_lookup _ _ _ _ _ Hout Hi)
    as (cleaned & Hcleaned & k & Hk & Hfree & Hbelow).
  apply list_lookup_fmap_Some in Hcleaned as (name & -> & Hname).
  by exists name, k.
Qed.

Lemma clean_and_ensure_unique_first_free_witness :
  length ["x!"; "x"; "x_1"] ≤ 3 ∧
  clean_and_ensure_unique 3 ["x!"; "x"; "x_1"] = Some ["x"; "x_1"; "x_1_1"] ∧
  ∃ name k, ["x!"; "x"; "x_1"] !! 2 = Some name ∧
    "x_1_1" = candidate (re_sub_non_word name) k ∧
    ("x_1_1" ∉ take 2 ["x"; "x_1"; "x_1_1"]) ∧
    (∀ k', k' < k →
       candidate (re_sub_non_word name) k' ∈ take 2 ["x"; "x_1"; "x_1_1"]).
Proof.
  assert (length ["x!"; "x"; "x_1"] ≤ 3) as Hfuel by (cbn; lia).
  assert (clean_and_ensure_unique 3 ["x!"; "x"; "x_1"]
          = Some ["x"; "x_1"; "x_1_1"]) as Hrun by (vm_compute; reflexivity).
  split; [exact Hfuel|]. split; [exact Hrun|].
  destruct (clean_and_ensure_unique_first_free ["x!"; "x"; "x_1"] 3 Hfuel)
    as (out & Hout & Hfirst).
  assert (out = ["x"; "x_1"; "x_1_1"]) as -> by congruence.
  apply (Hfirst 2 "x_1_1"). reflexivity.
Defined.

(** Property X2.  The result is just the cleaned names, none with a
    counter, exactly when the cleaned names are pairwise distinct. *)
Theorem clean_and_ensure_unique_without_collision (names : list string)
    (fuel : nat) :
  length names ≤ fuel →
  (clean_and_ensure_unique fuel names = Some (re_sub_non_word <$> names)
   ↔ NoDup (re_sub_non_word <$> names)).
Proof.
  intros Hfuel. split.
  - intros Hrun.
    destruct (clean_and_ensure_unique_spec fuel names Hfuel)
      as (out & Hout & Hnd & _). congruence.
  - intros Hnd. unfold clean_and_ensure_unique. cbn zeta.
    pose proof (for_enumerate_fixed fuel [] (re_sub_non_word <$> names) ∅)
      as Hfixed.
    cbn [app length] in Hfixed. apply Hfixed.
    + intros s. rewrite in_dict_empty. split; [done|]. by intros ?%elem_of_nil.
    + done.
    + destruct names; [by right|]. left. cbn in Hfuel. lia.
Qed.

Lemma clean_and_ensure_unique_without_collision_witness :
  length ["a-b"; "a_b"; "c d"] ≤ 3 ∧
  (clean_and_ensure_unique 3 ["a-b"; "a_b"; "c d"]
     = Some (re_sub_non_word <$> ["a-b"; "a_b"; "c d"])
   ↔ NoDup (re_sub_non_word <$> ["a-b"; "a_b"; "c d"])).
Proof.
  split; [cbn; lia|].
  apply (clean_and_ensure_unique_without_collision ["a-b"; "a_b"; "c d"] 3).
  cbn. lia.
Defined.

(** Property X3.  The lists the function returns unchanged are exactly the
    lists of pairwise distinct names made of letters, digits and
    underscores. *)
Theorem clean_and_ensure_unique_fixed_points (names : list string) (fuel : nat) :
  length names ≤ fuel →
  (clean_and_ensure_unique fuel names = Some names
   ↔ Forall word_string names ∧ NoDup names).
Proof.
  intros Hfuel. split.
  - intros Hrun.
    destruct (clean_and_ensure_unique_spec fuel names Hfuel)
      as (out & Hout & Hnd & Hall).
    assert (out = names) as -> by congruence. split; [|done].
    clear Hrun Hout Hnd Hfuel. apply Forall_forall. intros name' Hin.
    apply list_elem_of_lookup in Hin as [i Hi].
    destruct (Forall2_lookup_r _ _ _ _ _ Hall Hi) as (name & _ & k & ->).
    apply candidate_word.
  - intros [Hword Hnd]. by apply clean_and_ensure_unique_fixed_point.
Qed.

Lemma clean_and_ensure_unique_fixed_points_witness :
  length ["id"; "age_1"] ≤ 2 ∧
  (clean_and_ensure_unique 2 ["id"; "age_1"] = Some ["id"; "age_1"]
   ↔ Forall word_string ["id"; "age_1"] ∧ NoDup ["id"; "age_1"]).
Proof.
  split; [cbn; lia|].
  apply (clean_and_ensure_unique_fixed_points ["id"; "age_1"] 2). cbn. lia.
Defined.



(** Property X5.  Names are settled from left to right: the function
    returns for a list and for each of its prefixes (fuel covering the
    length of the list), and what is returned
    for a list starts with what is returned for any of its prefixes, so
    appending columns never renames the earlier ones. *)
Theorem clean_and_ensure_unique_prefix (names more : list string) (fuel : nat) :
  length (names ++ more) ≤ fuel →
  ∃ out,
    clean_and_ensure_unique fuel (names ++ more) = Some out ∧
    clean_and_ensure_unique fuel names = Some (take (length names) out).
Proof.
  intros Hlong.
  assert (length names ≤ fuel) as Hfuel by (rewrite length_app in Hlong; lia).
  destruct (clean_and_ensure_unique_spec fuel (names ++ more) Hlong)
    as (out0 & Hrun & _ & _).
  exists out0. split; [done|].
  apply clean_and_ensure_unique_settled in Hrun.
  rewrite fmap_app in Hrun.
  apply settled_app_inv in Hrun as (out1 & out2 & -> & Hout1 & _).
  destruct (clean_and_ensure_unique_spec fuel names Hfuel)
    as (out & Hout & _ & _).
  rewrite Hout. f_equal.
  rewrite (settled_functional _ _ _ _
             (clean_and_ensure_unique_settled _ _ _ Hout) Hout1).
  symmetry. apply take_app_length'.
  by rewrite (settled_length _ _ _ Hout1), length_fmap.
Qed.

Lemma clean_and_ensure_unique_prefix_witness :
  length (["Age%"; "Age"] ++ ["Age_1"]) ≤ 3 ∧
  clean_and_ensure_unique 3 (["Age%"; "Age"] ++ ["Age_1"])
    = Some ["Age"; "Age_1"; "Age_1_1"] ∧
  clean_and_ensure_unique 3 ["Age%"; "Age"]
    = Some (take (length ["Age%"; "Age"]) ["Age"; "Age_1"; "Age_1_1"]).
Proof.
  assert (clean_and_ensure_unique 3 (["Age%"; "Age"] ++ ["Age_1"])
          = Some ["Age"; "Age_1"; "Age_1_1"]) as Hrun
    by (vm_compute; reflexivity).
  assert (length (["Age%"; "Age"] ++ ["Age_1"]) ≤ 3) as Hfuel by (cbn; lia).
  split; [exact Hfuel|]. split; [exact Hrun|].
  destruct (clean_and_ensure_unique_prefix ["Age%"; "Age"] ["Age_1"] 3 Hfuel)
    as (out & Hout & Hprefix).
  assert (out = ["Age"; "Age_1"; "Age_1_1"]) as -> by congruence.
  exact Hprefix.
Defined.

(** Property X6.  [n] copies of one name come back as the cleaned name
    followed by the cleaned name with the counters 1, 2, ..., [n - 1]. *)
Theorem clean_and_ensure_unique_replicate (name : string) (n fuel : nat) :
  n ≤ fuel →
  clean_and_ensure_unique fuel (replicate n name)
  = Some (candidate (re_sub_non_word name) <$> seq 0 n).
Proof.
  intros Hfuel.
  destruct (clean_and_ensure_unique_spec fuel (replicate n name))
    as (out & Hout & _ & _); [by rewrite length_replicate|].
  rewrite Hout. f_equal.
  apply clean_and_ensure_unique_settled in Hout.
  rewrite fmap_replicate in Hout.
  exact (settled_functional _ _ _ _ Hout
           (settled_replicate (re_sub_non_word name) 0 n)).
Qed.

Lemma clean_and_ensure_unique_replicate_witness :
  3 ≤ 3 ∧
  clean_and_ensure_unique 3 (replicate 3 "3P%")
  = Some (candidate (re_sub_non_word "3P%") <$> seq 0 3).
Proof.
  split; [lia|]. apply (clean_and_ensure_unique_replicate "3P%" 3 3). lia.
Defined.

Example clean_and_ensure_unique_three_copies :
  clean_and_ensure_unique 3 ["3P%"; "3P%"; "3P%"] = Some ["3P"; "3P_1"; "3P_2"].
Proof. vm_compute. reflexivity. Qed.

(** Property X7.  The function returns (fuel covering the length of the
    list), and the counter appended at a position is at most the
    position: the name at index [i] is the cleaned name (candidate 0) or
    carries a counter between 1 and [i]. *)
Theorem clean_and_ensure_unique_counter_bound (names : list string)
    (fuel : nat) :
  length names ≤ fuel →
  ∃ out,
    clean_and_ensure_unique fuel names = Some out ∧
    ∀ i name', out !! i = Some name' →
      ∃ name k, names !! i = Some name ∧
                name' = candidate (re_sub_non_word name) k ∧ k ≤ i.
Proof.
  intros Hfuel.
  destruct (clean_and_ensure_unique_spec fuel names Hfuel)
    as (out & Hrun & _ & _).
  exists out. split; [done|]. intros i name' Hi.
  apply clean_and_ensure_unique_settled in Hrun.
  destruct (settled_lookup _ _ _ _ _ Hrun Hi)
    as (cleaned & Hcleaned & k & Hk & _ & Hbelow).
  apply list_lookup_fmap_Some in Hcleaned as (name & -> & Hname).
  exists name, k. split_and!; [done..|].
  assert (candidate (re_sub_non_word name) <$> seq 0 k ⊆+ take i out) as Hsub.
  { apply NoDup_submseteq.
    - apply (NoDup_fmap_2 _), NoDup_seq.
    - intros s (k' & -> & Hk'%elem_of_seq)%list_elem_of_fmap.
      apply Hbelow. lia. }
  apply submseteq_length in Hsub.
  rewrite length_fmap, length_seq, length_take in Hsub. lia.
Qed.

Lemma clean_and_ensure_unique_counter_bound_witness :
  length ["a"; "a"; "a"] ≤ 3 ∧
  clean_and_ensure_unique 3 ["a"; "a"; "a"] = Some ["a"; "a_1"; "a_2"] ∧
  ∃ name k, ["a"; "a"; "a"] !! 2 = Some name ∧
            "a_2" = candidate (re_sub_non_word name) k ∧ k ≤ 2.
Proof.
  assert (length ["a"; "a"; "a"] ≤ 3) as Hfuel by (cbn; lia).
  assert (clean_and_ensure_unique 3 ["a"; "a"; "a"]
          = Some ["a"; "a_1"; "a_2"]) as Hrun by (vm_compute; reflexivity).
  split; [exact Hfuel|]. split; [exact Hrun|].
  destruct (clean_and_ensure_unique_counter_bound ["a"; "a"; "a"] 3 Hfuel)
    as (out & Hout & Hbound).
  assert (out = ["a"; "a_1"; "a_2"]) as -> by congruence.
  apply (Hbound 2 "a_2"). reflexivity.
Defined.

Lemma re_sub_non_word_nothing_left name :
  Forall (λ c, is_word_char c = false) (chars name) →
  re_sub_non_word name = "".
Proof.
  induction name as [|c name IH]; [done|]. cbn.
  intros [Hc Hname]%Forall_cons. rewrite Hc. by apply IH.
Qed.

(** Property X8.  Names without a single letter, digit or underscore are
    cleaned to the empty string, so the function can return an empty name:
    a list of such names comes back as the empty name followed by ["_1"],
    ["_2"], ... *)
Theorem clean_and_ensure_unique_only_special_chars (names : list string)
    (fuel : nat) :
  Forall (λ name, Forall (λ c, is_word_char c = false) (chars name)) names →
  length names ≤ fuel →
  clean_and_ensure_unique fuel names
  = Some (candidate "" <$> seq 0 (length names)).
Proof.
  intros Hspecial Hfuel.
  destruct (clean_and_ensure_unique_spec fuel names Hfuel)
    as (out & Hout & _ & _).
  rewrite Hout. f_equal.
  apply clean_and_ensure_unique_settled in Hout.
  assert (re_sub_non_word <$> names = replicate (length names) "") as Hempty.
  { clear Hout Hfuel out. induction Hspecial as [|name names Hname _ IH]; [done|].
    cbn. by rewrite re_sub_non_word_nothing_left, IH. }
  rewrite Hempty in Hout.
  exact (settled_functional _ _ _ _ Hout (settled_replicate "" 0 (length names))).
Qed.

Lemma clean_and_ensure_unique_only_special_chars_witness :
  Forall (λ name, Forall (λ c, is_word_char c = false) (chars name))
    ["%"; "$ $"] ∧
  length ["%"; "$ $"] ≤ 2 ∧
  clean_and_ensure_unique 2 ["%"; "$ $"] = Some [""; "_1"].
Proof.
  assert (Forall (λ name, Forall (λ c, is_word_char c = false) (chars name))
            ["%"; "$ $"]) as Hspecial.
  { repeat constructor. }
  assert (length ["%"; "$ $"] ≤ 2) as Hfuel by (cbn; lia).
  split; [exact Hspecial|]. split; [exact Hfuel|].
  etrans; [exact (clean_and_ensure_unique_only_special_chars _ 2 Hspecial Hfuel)|].
  vm_compute. reflexivity.
Defined.

(** ** Further properties of the wrapper *)

Lemma df_getitem_present (label : string) (df : DataFrame) :
  label ∈ df_columns df → ∃ y0, df_getitem label df = inr y0.
Proof.
  intros Hin. unfold df_getitem.
  apply list_elem_of_fmap in Hin as ([l values] & Hl & Hin).
  destruct (filter _ df) as [|c [|c' cs]] eqn:Hf; [|by eauto..].
  exfalso. eapply elem_of_nil. rewrite <-Hf.
  apply list_elem_of_filter. split; [by symmetry|done].
Qed.

Section wrapper_lifecycle.
Context `{Engine} `{!Disk}.

Lemma train_returned self disk trained disk1 :
  train (self, disk) = (inr (), (trained, disk1)) →
  disk1 = disk ∧
  trained = set_is_trained true
              (set_automl (automl_fit (automl self) (x self) (y self)).2 self).
Proof.
  unfold train. destruct (automl_fit _ _ _) as [[e|[]] fitted]; [done|].
  by intros [= <- <-].
Qed.

Lemma save_predictor_model_dumped model predictor_dir_path disk model' disk' :
  _is_trained model = true →
  save_predictor_model predictor_dir_path (model, disk)
    = (inr (), (model', disk')) →
  model' = model ∧
  ∃ disk1, joblib_dump model
             (os_path_join predictor_dir_path PREDICTOR_FILE_NAME) disk1
           = inr disk'.
Proof.
  intros Hflag Hrun. unfold save_predictor_model in Hrun.
  destruct (negb (os_path_exists predictor_dir_path disk)).
  - destruct (os_makedirs predictor_dir_path disk) as [|disk1]; [done|].
    rewrite save_trained in Hrun by done.
    destruct (joblib_dump _ _ disk1) eqn:Hdump; simplify_eq. eauto.
  - rewrite save_trained in Hrun by done.
    destruct (joblib_dump _ _ disk) eqn:Hdump; simplify_eq. eauto.
Qed.

(** Property X9.  When the engine's [fit] raises, [train] raises the same
    error and does not set the flag: a constructed object whose training
    failed is still unfitted, so [save] raises [NotFittedError] on it and
    [save_predictor_model] does not return normally. *)
Theorem failed_training_leaves_the_model_unfitted (train_input : DataFrame)
    (schema0 : ClassificationSchema) (disk : fs) (self : Classifier) (e : exn) :
  __init__ train_input schema0 disk = inr self →
  (automl_fit (automl self) (x self) (y self)).1 = inl e →
  (train (self, disk)).1 = inl e ∧
  _is_trained (train (self, disk)).2.1 = false ∧
  ∀ dir disk',
    save dir ((train (self, disk)).2.1, disk')
    = (inl (NotFittedError "Model is not fitted yet."),
       ((train (self, disk)).2.1, disk')) ∧
    (save_predictor_model dir ((train (self, disk)).2.1, disk')).1 ≠ inr ().
Proof.
  intros Hinit Hfit.
  assert (_is_trained self = false) as Hflag.
  { apply init_inversion in Hinit
      as (x0 & y0 & config & t & m & i & s & engine
          & _ & _ & _ & _ & _ & _ & _ & _ & ->). done. }
  assert ((train (self, disk)).1 = inl e ∧
          _is_trained (train (self, disk)).2.1 = false) as [Hraise Hstill].
  { unfold train. destruct (automl_fit _ _ _) as [[e'|[]] fitted]; [|done].
    cbn in *. split; [done|exact Hflag]. }
  split; [done|]. split; [done|]. intros dir disk'. split.
  - by apply save_untrained.
  - unfold save_predictor_model.
    destruct (negb (os_path_exists dir disk')).
    + destruct (os_makedirs dir disk') as [|disk'']; [done|].
      by rewrite save_untrained.
    + by rewrite save_untrained.
Qed.

(** Property X10.  With an untrained model [save_predictor_model] never
    returns normally and never calls [joblib.dump], yet it has created the
    directory by then if the directory was missing: the disk it leaves is
    the one [os.makedirs] made. *)
Theorem save_predictor_model_untrained (model : Classifier)
    (predictor_dir_path : string) (disk : fs) :
  _is_trained model = false →
  save_predictor_model predictor_dir_path (model, disk)
  = (if os_path_exists predictor_dir_path disk then
       (inl (NotFittedError "Model is not fitted yet."), (model, disk))
     else
       match os_makedirs predictor_dir_path disk with
       | inl msg => (inl (OSError msg), (model, disk))
       | inr disk' =>
           (inl (NotFittedError "Model is not fitted yet."), (model, disk'))
       end) ∧
  (save_predictor_model predictor_dir_path (model, disk)).1 ≠ inr ().
Proof.
  intros Hflag. unfold save_predictor_model.
  destruct (os_path_exists predictor_dir_path disk); cbn [negb].
  - by rewrite save_untrained.
  - destruct (os_makedirs predictor_dir_path disk) as [msg|disk'];
      [done|]. by rewrite save_untrained.
Qed.

(** Property X11.  The constructor needs the target column: without it the
    call raises [KeyError] for the target label, whatever the disk holds,
    and so every constructed object comes from a frame that has it. *)
Theorem init_needs_the_target_column (train_input : DataFrame)
    (schema0 : ClassificationSchema) (disk : fs) :
  (target schema0 ∉ df_columns train_input →
     __init__ train_input schema0 disk = inl (KeyError (target schema0))) ∧
  (∀ self, __init__ train_input schema0 disk = inr self →
     target schema0 ∈ df_columns train_input).
Proof.
  split.
  - intros Hin. unfold __init__, mbind, result_bind.
    by rewrite df_drop_columns_missing.
  - intros self Hinit.
    destruct (decide (target schema0 ∈ df_columns train_input)) as [|Hin];
      [done|].
    unfold __init__, mbind, result_bind in Hinit.
    by rewrite df_drop_columns_missing in Hinit.
Qed.

(** Property X12.  With the target column in place, a configuration file
    that cannot be read makes the constructor raise the I/O error, and a
    configuration that was read but lacks one of [task_time], [model_time],
    [include], [seed_value] makes it raise [KeyError] for the first of
    these, in this order, that is missing. *)
Theorem init_configuration_errors (train_input : DataFrame)
    (schema0 : ClassificationSchema) (disk : fs) :
  target schema0 ∈ df_columns train_input →
  (∀ msg, read_json_as_dict MODEL_CONFIG_FILE_PATH disk = inl msg →
     __init__ train_input schema0 disk = inl (OSError msg)) ∧
  (∀ config present key later,
     read_json_as_dict MODEL_CONFIG_FILE_PATH disk = inr config →
     ["task_time"; "model_time"; "include"; "seed_value"]
       = present ++ key :: later →
     (∀ k, k ∈ present → is_Some (config !! k)) →
     config !! key = None →
     __init__ train_input schema0 disk = inl (KeyError key)).
Proof.
  intros Hin.
  destruct (df_getitem_present _ _ Hin) as [y0 Hget].
  split.
  - intros msg Hread.
    unfold __init__, mbind, result_bind, lift_io.
    by rewrite df_drop_columns_target, Hget, Hread.
  - intros config present key later Hread Hkeys Hpresent Hmissing.
    unfold __init__, mbind, result_bind, mret, result_ret, dict_getitem, lift_io.
    rewrite df_drop_columns_target, Hget, Hread by done.
    assert (∀ k, k ∈ present → ∃ v, config !! k = Some v) as Hsome.
    { intros k Hk. by apply Hpresent. }
    destruct present as [|k1 [|k2 [|k3 [|k4 present]]]]; simplify_eq/=.
    + by rewrite Hmissing.
    + destruct (Hsome "task_time") as [v1 ->]; [left|].
      by rewrite Hmissing.
    + destruct (Hsome "task_time") as [v1 ->]; [left|].
      destruct (Hsome "model_time") as [v2 ->]; [right; left|].
      by rewrite Hmissing.
    + destruct (Hsome "task_time") as [v1 ->]; [left|].
      destruct (Hsome "model_time") as [v2 ->]; [right; left|].
      destruct (Hsome "include") as [v3 ->]; [do 2 right; left|].
      by rewrite Hmissing.
    + by destruct present.
Qed.

(** Property X13.  The printed form of a constructed object is
    ["Model name: auto_sklearn_classifier"]: it ends with the object's
    [model_name], and training does not change it. *)
Theorem str_names_the_model (train_input : DataFrame)
    (schema0 : ClassificationSchema) (disk disk' : fs) (self : Classifier) :
  __init__ train_input schema0 disk = inr self →
  __str__ self = "Model name: auto_sklearn_classifier" ∧
  __str__ self = "Model name: " +:+ model_name self ∧
  __str__ (train (self, disk')).2.1 = __str__ self.
Proof.
  intros Hinit.
  apply init_inversion in Hinit
    as (x0 & y0 & config & t & m & i & s & engine
        & _ & _ & _ & _ & _ & _ & _ & _ & ->).
  split_and!; [done..|].
  unfold train, __str__. cbn [automl x y].
  by destruct (automl_fit _ _ _) as [[e|[]] fitted].
Qed.

(** Property X14.  The life of a predictor: once a constructed object has
    been trained without error, saving it never raises [NotFittedError],
    and after a normal [save_predictor_model] the object that
    [load_predictor_model] returns is the trained one: flag set, [x] and
    [y] those of the constructor, and its predictions the answers of the
    engine as [fit] left it. *)
Theorem trained_model_saves_and_loads (train_input : DataFrame)
    (schema0 : ClassificationSchema) (disk disk1 : fs)
    (self trained : Classifier) :
  __init__ train_input schema0 disk = inr self →
  train (self, disk) = (inr (), (trained, disk1)) →
  (∀ dir disk' msg,
     (save_predictor_model dir (trained, disk')).1 ≠ inl (NotFittedError msg)) ∧
  (∀ dir saved disk2,
     save_predictor_model dir (trained, disk1) = (inr (), (saved, disk2)) →
     ∃ loaded,
       load_predictor_model dir disk2 = inr loaded ∧
       loaded = trained ∧
       _is_trained loaded = true ∧
       x loaded = filter (λ c, c.1 ≠ target schema0) train_input ∧
       df_getitem (target schema0) train_input = inr (y loaded) ∧
       ∀ data return_proba,
         (predict_with_model data return_proba (loaded, disk2)).1
         = if return_proba
           then automl_predict_proba
                  (automl_fit (automl self) (x self) (y self)).2 data
           else automl_predict
                  (automl_fit (automl self) (x self) (y self)).2 data).
Proof.
  intros Hinit [-> ->]%train_returned.
  set (fitted := (automl_fit (automl self) (x self) (y self)).2).
  assert (_is_trained (set_is_trained true (set_automl fitted self)) = true)
    as Hflag by done.
  split.
  - intros dir disk' msg. unfold save_predictor_model.
    destruct (negb (os_path_exists dir disk')).
    + destruct (os_makedirs dir disk') as [|disk'']; [done|].
      rewrite save_trained by done. by destruct (joblib_dump _ _ _).
    + rewrite save_trained by done. by destruct (joblib_dump _ _ _).
  - intros dir saved disk2 Hsave.
    destruct (save_predictor_model_dumped _ _ _ _ _ Hflag Hsave)
      as (-> & disk' & Hdump).
    eexists. split.
    { unfold load_predictor_model, load.
      by rewrite (joblib_load_dump _ _ _ _ Hdump). }
    split; [done|]. split; [done|].
    pose proof Hinit as Hinv.
    apply init_inversion in Hinv
      as (x0 & y0 & config & t & m & i & s & engine
          & Hdrop & Hget & _ & _ & _ & _ & _ & _ & Hself).
    assert (target schema0 ∈ df_columns train_input) as Hin.
    { destruct (decide (target schema0 ∈ df_columns train_input)) as [|Hn];
        [done|]. by rewrite df_drop_columns_missing in Hdrop. }
    rewrite df_drop_columns_target in Hdrop by done.
    split_and!.
    + rewrite Hself. cbn. congruence.
    + rewrite Hself. cbn. congruence.
    + by intros data [].
Qed.
End wrapper_lifecycle.

(** ** The further properties on the sample run *)

Lemma failed_training_leaves_the_model_unfitted_witness :
  @__init__ FailingEngine ReadOnlyDisk sample_train_input sample_schema ()
    = inr sample_unfitted ∧
  (@automl_fit FailingEngine (automl sample_unfitted) (x sample_unfitted)
     (y sample_unfitted)).1 = inl (EngineError "No models fitted") ∧
  (@train FailingEngine ReadOnlyDisk (sample_unfitted, ())).1
    = inl (EngineError "No models fitted") ∧
  _is_trained (@train FailingEngine ReadOnlyDisk (sample_unfitted, ())).2.1
    = false.
Proof.
  assert (@__init__ FailingEngine ReadOnlyDisk sample_train_input
            sample_schema () = inr sample_unfitted) as Hinit
    by (vm_compute; reflexivity).
  assert ((@automl_fit FailingEngine (automl sample_unfitted)
             (x sample_unfitted) (y sample_unfitted)).1
          = inl (EngineError "No models fitted")) as Hfit by reflexivity.
  split; [exact Hinit|]. split; [exact Hfit|].
  destruct (@failed_training_leaves_the_model_unfitted FailingEngine
              ReadOnlyDisk sample_train_input sample_schema ()
              sample_unfitted _ Hinit Hfit) as (Hraise & Hflag & _).
  split; [exact Hraise|exact Hflag].
Defined.

Lemma save_predictor_model_untrained_witness :
  _is_trained sample_classifier = false ∧
  @save_predictor_model RecordingEngine MemDisk "model"
    (sample_classifier, sample_disk)
  = (inl (NotFittedError "Model is not fitted yet."),
     (sample_classifier, <["model" := Directory]> sample_disk)).
Proof.
  split; [reflexivity|].
  destruct (@save_predictor_model_untrained RecordingEngine MemDisk
              sample_classifier "model" sample_disk eq_refl) as [Hrun _].
  etrans; [exact Hrun|]. vm_compute. reflexivity.
Defined.

Lemma init_configuration_errors_witness :
  "label" ∈ df_columns sample_train_input ∧
  @__init__ RecordingEngine MemDisk sample_train_input sample_schema
    {[ "model_config.json" := JsonFile (delete "seed_value" sample_config) ]}
  = inl (KeyError "seed_value").
Proof.
  assert ("label" ∈ df_columns sample_train_input) as Hin.
  { right. left. }
  split; [exact Hin|].
  destruct (@init_configuration_errors RecordingEngine MemDisk
              sample_train_input sample_schema
              {[ "model_config.json" :=
                   JsonFile (delete "seed_value" sample_config) ]} Hin)
    as [_ Hkeys].
  apply (Hkeys (delete "seed_value" sample_config)
           ["task_time"; "model_time"; "include"] "seed_value" []).
  - vm_compute. reflexivity.
  - reflexivity.
  - intros k Hk.
    apply elem_of_cons in Hk as [->|Hk]; [by eexists|].
    apply elem_of_cons in Hk as [->|Hk]; [by eexists|].
    apply elem_of_cons in Hk as [->|Hk]; [by eexists|].
    by apply elem_of_nil in Hk.
  - vm_compute. reflexivity.
Defined.

Lemma str_names_the_model_witness :
  @__init__ RecordingEngine MemDisk sample_train_input sample_schema sample_disk
    = inr sample_classifier ∧
  __str__ sample_classifier = "Model name: auto_sklearn_classifier".
Proof.
  assert (@__init__ RecordingEngine MemDisk sample_train_input sample_schema
            sample_disk = inr sample_classifier) as Hinit
    by (vm_compute; reflexivity).
  split; [exact Hinit|].
  exact (proj1 (@str_names_the_model RecordingEngine MemDisk
                  sample_train_input sample_schema sample_disk sample_disk
                  sample_classifier Hinit)).
Defined.

Lemma trained_model_saves_and_loads_witness :
  @__init__ RecordingEngine MemDisk sample_train_input sample_schema sample_disk
    = inr sample_classifier ∧
  @train RecordingEngine MemDisk (sample_classifier, sample_disk)
    = (inr (), (sample_trained, sample_disk)) ∧
  @save_predictor_model RecordingEngine MemDisk "model"
    (sample_trained, sample_disk) = (inr (), (sample_trained, saved_disk)) ∧
  @load_predictor_model RecordingEngine MemDisk "model" saved_disk
    = inr sample_trained.
Proof.
  assert (@__init__ RecordingEngine MemDisk sample_train_input sample_schema
            sample_disk = inr sample_classifier) as Hinit
    by (vm_compute; reflexivity).
  assert (@train RecordingEngine MemDisk (sample_classifier, sample_disk)
          = (inr (), (sample_trained, sample_disk))) as Htrain
    by (vm_compute; reflexivity).
  assert (@save_predictor_model RecordingEngine MemDisk "model"
            (sample_trained, sample_disk)
          = (inr (), (sample_trained, saved_disk))) as Hsave
    by (vm_compute; reflexivity).
  split; [exact Hinit|]. split; [exact Htrain|]. split; [exact Hsave|].
  destruct (@trained_model_saves_and_loads RecordingEngine MemDisk
              sample_train_input sample_schema sample_disk sample_disk
              sample_classifier sample_trained Hinit Htrain) as [_ Hload].
  destruct (Hload "model" sample_trained saved_disk Hsave)
    as (loaded & Hloaded & -> & _).
  exact Hloaded.
Defined.
